(** * FuelEU pool: the compliance calculator

    A shallow embedding of [ComplianceCalculator] (the class that turns a
    vessel's fuel consumption and GHG intensity into a compliance balance,
    a status, a penalty and a score, and that aggregates vessels into a
    pool), followed by the properties its specification states.

    Numbers.  JavaScript numbers are modelled by exact rationals ([Q]):
    every finite double is a rational, and the arithmetic below is the
    arithmetic of the source without the rounding of the floating-point
    unit.  Equalities between numbers are therefore stated with [==].
    The only division whose divisor comes from the input is the one of
    [poolAverageIntensity] and the one of [requiredReductionPercent]; a
    theorem that depends on its value assumes the divisor is not zero.

    Rounding.  Where the source rounds a computed number with [toFixed],
    the floating-point number it rounds can lie on the other side of a
    tie from the exact one, and a floating-point sum that is zero in
    exact arithmetic can come out just below zero.  A statement that
    ties a returned field to an exact expression is stated so that it
    holds whichever way such a tie goes: as an order or a sign, as a sum
    of numbers that are already rounded, or up to one unit of the last
    decimal kept. *)

From Stdlib Require Import ZArith QArith Qminmax Qround Qabs.
From Stdlib Require Import List String Bool Lia Lqa.
Import ListNotations.

Open Scope Q_scope.

(** ** Results and exceptions *)

(** The exception the calculator throws,
    [new Error(`Invalid compliance year: ${year}`)], and the one the
    engine raises when a reference passed as a vessel holds no object. *)
Inductive Error : Type :=
| InvalidYear (year : Z)
| TypeError.            (* a property read on [undefined] *)

Inductive Result (A : Type) : Type :=
| Ok (a : A)
| Throw (e : Error).

Arguments Ok {A} a.
Arguments Throw {A} e.

Definition bind {A B : Type} (m : Result A) (k : A -> Result B) : Result B :=
  match m with
  | Ok a => k a
  | Throw e => Throw e
  end.

Notation "x <- m ;; k" := (bind m (fun x => k))
  (at level 61, m at next level, right associativity).

(** ** Numbers *)

Definition pow10 (d : nat) : Q := inject_Z (10 ^ Z.of_nat d).

(** The integer nearest to [x], ties away from zero: [toFixed] takes the
    sign off, picks the integer [n] nearest to the magnitude and, of two
    equally near, the larger. *)
Definition roundHalfAway (x : Q) : Z :=
  if Qle_bool 0 x then Qfloor (x + (1 # 2))
  else (- Qfloor (- x + (1 # 2)))%Z.

(** [Number(x.toFixed(d))].  From 10^21 on [toFixed] prints [x] in
    exponent notation and [Number] reads [x] back; a double of that size
    is an integer, which the rounding below leaves as it is. *)
Definition toFixed (d : nat) (x : Q) : Q :=
  inject_Z (roundHalfAway (x * pow10 d)) / pow10 d.

(** [a < b] as the source tests it. *)
Definition Qlt_bool (a b : Q) : bool := negb (Qle_bool b a).

(** ** The calculator's tables *)

(** A table object with numeric keys. *)
Definition Table : Type := list (Z * Q).

Fixpoint prop (t : Table) (k : Z) : option Q :=
  match t with
  | [] => None
  | (k', v) :: t' => if Z.eqb k k' then Some v else prop t' k
  end.

(** [!x] for a table entry: [undefined] and [0] are falsy. *)
Definition falsy (x : option Q) : bool :=
  match x with
  | None => true
  | Some q => Qeq_bool q 0
  end.

(** [x || y] for table entries. *)
Definition orElse (x y : option Q) : option Q :=
  if falsy x then y else x.

Definition complianceTargets : Table :=
  [ (2025%Z, 2 # 100); (2026%Z, 2 # 100); (2027%Z, 2 # 100);
    (2028%Z, 2 # 100); (2029%Z, 2 # 100); (2030%Z, 6 # 100);
    (2031%Z, 6 # 100); (2032%Z, 6 # 100) ].

Definition referenceGHGIntensity : Q := 9116 # 100.

Definition penaltyRates : Table :=
  [ (2025%Z, 640); (2026%Z, 640); (2027%Z, 640);
    (2028%Z, 640); (2029%Z, 640); (2030%Z, 640) ].

Definition bankingLimit : Q := 5 # 100.
Definition borrowingLimit : Q := 5 # 100.

(** The number an entry stands for in arithmetic; both tables are
    constants and no path of the calculator computes with a missing
    entry. *)
Definition numberOf (x : option Q) : Q :=
  match x with
  | Some q => q
  | None => 0
  end.

(** [!this.complianceTargets[year]] is false. *)
Definition validYear (year : Z) : bool :=
  negb (falsy (prop complianceTargets year)).

(** [this.penaltyRates[year] || this.penaltyRates[2030]] *)
Definition penaltyRateFor (year : Z) : Q :=
  numberOf (orElse (prop penaltyRates year) (prop penaltyRates 2030%Z)).

(** ** Vessels *)

(** What a property of a vessel record can hold besides the two numbers
    the calculator reads. *)
Inductive Value : Type :=
| VNum (q : Q)
| VStr (s : string)
| VFixed (digits : nat) (q : Q).   (* the string [q.toFixed(digits)] *)

(** A vessel record: the two numeric properties the calculator reads and
    the other own properties (id, name, imo, type, status, owner, pool,
    dateAdded, lastUpdated, ...) in insertion order. *)
Record Vessel : Type := mkVessel {
  fuelConsumption : Q;
  ghgIntensity : Q;
  otherProps : list (string * Value)
}.

Inductive Status : Type :=
| compliant
| non_compliant.

Definition Status_eqb (a b : Status) : bool :=
  match a, b with
  | compliant, compliant => true
  | non_compliant, non_compliant => true
  | _, _ => false
  end.

(** ** calculateComplianceScore *)

(** The two branches of the score. *)
Definition bonusScore (actualIntensity targetIntensity : Q) : Q :=
  let surplusPercent := (targetIntensity - actualIntensity) / targetIntensity in
  Qmin 100 (100 + surplusPercent * 20).

Definition penaltyScore (actualIntensity targetIntensity : Q) : Q :=
  let deficitPercent := (actualIntensity - targetIntensity) / targetIntensity in
  Qmax 0 (100 - deficitPercent * 100).

Definition calculateComplianceScore (actualIntensity targetIntensity : Q) : Q :=
  if Qle_bool actualIntensity targetIntensity
  then bonusScore actualIntensity targetIntensity
  else penaltyScore actualIntensity targetIntensity.

(** ** calculateVesselCompliance *)

(** The constants of the body of [calculateVesselCompliance], each as a
    function of what it is computed from; none of them is rounded. *)
Module Calc.

Definition targetIntensity (target : Q) : Q :=
    referenceGHGIntensity * (1 - target).

Definition deviation (targetIntensity : Q) (vessel : Vessel) : Q :=
    targetIntensity - ghgIntensity vessel.

Definition deviationPercent (targetIntensity : Q) (vessel : Vessel) : Q :=
    (deviation targetIntensity vessel / targetIntensity) * 100.

Definition complianceBalance (targetIntensity : Q) (vessel : Vessel) : Q :=
    (deviation targetIntensity vessel * fuelConsumption vessel) / 1000000.

Definition status (targetIntensity : Q) (vessel : Vessel) : Status :=
    if Qlt_bool (complianceBalance targetIntensity vessel) 0
    then non_compliant
    else compliant.

Definition energyDeficit (targetIntensity : Q) (vessel : Vessel) : Q :=
    Qmax 0 (deviation targetIntensity vessel * fuelConsumption vessel).

Definition energySurplus (targetIntensity : Q) (vessel : Vessel) : Q :=
    Qmax 0 (- deviation targetIntensity vessel * fuelConsumption vessel).

Definition potentialPenalty (penaltyRate targetIntensity : Q)
             (vessel : Vessel) : Q :=
    if Qlt_bool (complianceBalance targetIntensity vessel) 0
    then Qabs (complianceBalance targetIntensity vessel) * penaltyRate / 1000000
    else 0.

End Calc.

(** The object [calculateVesselCompliance] returns: the spread of the
    vessel, then the computed properties, which replace a property of
    the vessel that has the same name. *)
Record VesselResult : Type := mkVesselResult {
  spread : Vessel;
  complianceYear : Z;
  targetIntensity : Q;
  deviation : Q;
  deviationPercent : Q;
  energyDeficit : Q;
  energySurplus : Q;
  complianceBalance : Q;
  potentialPenalty : Q;
  status : Status;
  complianceScore : Q
}.

(** The [return] statement, for the target of a valid year. *)
Definition vesselResult (vessel : Vessel) (year : Z) (target : Q)
  : VesselResult :=
  let targetIntensity := Calc.targetIntensity target in
  let penaltyRate := penaltyRateFor year in
  {| spread := vessel;
     complianceYear := year;
     targetIntensity := toFixed 2 targetIntensity;
     deviation := toFixed 3 (Calc.deviation targetIntensity vessel);
     deviationPercent := toFixed 2 (Calc.deviationPercent targetIntensity vessel);
     energyDeficit := toFixed 0 (Calc.energyDeficit targetIntensity vessel);
     energySurplus := toFixed 0 (Calc.energySurplus targetIntensity vessel);
     complianceBalance := toFixed 2 (Calc.complianceBalance targetIntensity vessel);
     potentialPenalty :=
       toFixed 2 (Calc.potentialPenalty penaltyRate targetIntensity vessel);
     status := Calc.status targetIntensity vessel;
     complianceScore :=
       calculateComplianceScore (ghgIntensity vessel) targetIntensity |}.

Definition calculateVesselCompliance (vessel : Vessel) (year : Z)
  : Result VesselResult :=
  if falsy (prop complianceTargets year)
  then Throw (InvalidYear year)
  else
    let target := numberOf (prop complianceTargets year) in
    Ok (vesselResult vessel year target).

(** ** calculatePoolCompliance *)

(** The [let] variables the callback of [vessels.map] adds to. *)
Module Totals.

Record t : Type := mk {
    totalEnergyConsumption : Q;
    totalEmissions : Q;
    totalEnergyDeficit : Q;
    totalEnergySurplus : Q;
    totalComplianceBalance : Q;
    totalPotentialPenalty : Q;
    compliantCount : Z;
    nonCompliantCount : Z;
    totalDeficitFromVessels : Q;
    totalSurplusFromVessels : Q
  }.

Definition zero : t := mk 0 0 0 0 0 0 0%Z 0%Z 0 0.

End Totals.

(** One call of the callback, after [result] has been computed: the
    totals take the properties of [result], which are the rounded ones. *)
Definition accumulate (vessel : Vessel) (result : VesselResult)
           (acc : Totals.t) : Totals.t :=
  {| Totals.totalEnergyConsumption :=
       Totals.totalEnergyConsumption acc + fuelConsumption vessel;
     Totals.totalEmissions :=
       Totals.totalEmissions acc + fuelConsumption vessel * ghgIntensity vessel;
     Totals.totalEnergyDeficit :=
       Totals.totalEnergyDeficit acc + energyDeficit result;
     Totals.totalEnergySurplus :=
       Totals.totalEnergySurplus acc + energySurplus result;
     Totals.totalComplianceBalance :=
       Totals.totalComplianceBalance acc + complianceBalance result;
     Totals.totalPotentialPenalty :=
       Totals.totalPotentialPenalty acc + potentialPenalty result;
     Totals.compliantCount :=
       if Status_eqb (status result) compliant
       then (Totals.compliantCount acc + 1)%Z
       else Totals.compliantCount acc;
     Totals.nonCompliantCount :=
       if Status_eqb (status result) compliant
       then Totals.nonCompliantCount acc
       else (Totals.nonCompliantCount acc + 1)%Z;
     Totals.totalDeficitFromVessels :=
       if Qlt_bool (complianceBalance result) 0
       then Totals.totalDeficitFromVessels acc + Qabs (complianceBalance result)
       else Totals.totalDeficitFromVessels acc;
     Totals.totalSurplusFromVessels :=
       if Qlt_bool (complianceBalance result) 0
       then Totals.totalSurplusFromVessels acc
       else if Qlt_bool 0 (complianceBalance result)
            then Totals.totalSurplusFromVessels acc + complianceBalance result
            else Totals.totalSurplusFromVessels acc |}.

(** [vessels.map(vessel => ...)]: the vessels in order, the totals
    threaded through; an exception of a call ends the loop. *)
Fixpoint mapVessels (vessels : list Vessel) (year : Z) (acc : Totals.t)
  : Result (list VesselResult * Totals.t) :=
  match vessels with
  | [] => Ok ([], acc)
  | vessel :: rest =>
      result <- calculateVesselCompliance vessel year ;;
      out <- mapVessels rest year (accumulate vessel result acc) ;;
      Ok (result :: fst out, snd out)
  end.

(** The constants computed after the loop. *)
Module Pool.

Definition poolAverageIntensity (acc : Totals.t) : Q :=
    Totals.totalEmissions acc / Totals.totalEnergyConsumption acc.

Definition poolTargetIntensity (target : Q) : Q :=
    referenceGHGIntensity * (1 - target).

Definition poolCompliant (acc : Totals.t) : bool :=
    Qle_bool 0 (Totals.totalComplianceBalance acc).

Definition netEnergyDeficit (acc : Totals.t) : Q :=
    Qmax 0 (Totals.totalEnergyDeficit acc - Totals.totalEnergySurplus acc).

Definition netEnergySurplus (acc : Totals.t) : Q :=
    Qmax 0 (Totals.totalEnergySurplus acc - Totals.totalEnergyDeficit acc).

Definition poolComplianceScore (target : Q) (acc : Totals.t) : Q :=
    calculateComplianceScore (poolAverageIntensity acc)
                             (poolTargetIntensity target).

End Pool.

Module Summary.

Record t : Type := mk {
    totalVessels : Z;
    compliantVessels : Z;
    nonCompliantVessels : Z;
    complianceRate : Q;
    totalEnergyConsumption : Q;
    totalEmissions : Q;
    poolEnergyDeficit : Q;
    poolEnergySurplus : Q;
    netEnergyDeficit : Q;
    netEnergySurplus : Q;
    poolComplianceBalance : Q;
    poolComplianceDeficit : Q;
    poolComplianceSurplus : Q;
    poolAverageIntensity : Q;
    poolTargetIntensity : Q;
    poolDeviation : Q;
    poolCompliant : bool;
    poolComplianceScore : Q;
    poolPotentialPenalty : Q;
    totalPotentialPenalty : Q;
    totalVesselPenalties : option Q;   (* only the empty result has it *)
    complianceYear : Z;
    reductionTarget : Value
  }.

End Summary.

Record PoolResult : Type := mkPoolResult {
  vessels : list VesselResult;
  summary : Summary.t
}.

Definition lengthOf {A : Type} (l : list A) : Z := Z.of_nat (List.length l).

(** The [summary] object of a pool that is not empty. *)
Definition poolSummary (count : Z) (year : Z) (target : Q) (acc : Totals.t)
  : Summary.t :=
  let poolAverageIntensity := Pool.poolAverageIntensity acc in
  let poolTargetIntensity := Pool.poolTargetIntensity target in
  let totalComplianceBalance := Totals.totalComplianceBalance acc in
  {| Summary.totalVessels := count;
     Summary.compliantVessels := Totals.compliantCount acc;
     Summary.nonCompliantVessels := Totals.nonCompliantCount acc;
     Summary.complianceRate :=
       toFixed 1 ((inject_Z (Totals.compliantCount acc) / inject_Z count) * 100);
     Summary.totalEnergyConsumption :=
       toFixed 0 (Totals.totalEnergyConsumption acc);
     Summary.totalEmissions := toFixed 0 (Totals.totalEmissions acc);
     Summary.poolEnergyDeficit :=
       toFixed 2 (Totals.totalEnergyDeficit acc / 1000000);
     Summary.poolEnergySurplus :=
       toFixed 2 (Totals.totalEnergySurplus acc / 1000000);
     Summary.netEnergyDeficit := toFixed 2 (Pool.netEnergyDeficit acc / 1000000);
     Summary.netEnergySurplus := toFixed 2 (Pool.netEnergySurplus acc / 1000000);
     Summary.poolComplianceBalance := toFixed 2 totalComplianceBalance;
     Summary.poolComplianceDeficit :=
       toFixed 2 (Totals.totalDeficitFromVessels acc);
     Summary.poolComplianceSurplus :=
       toFixed 2 (Totals.totalSurplusFromVessels acc);
     Summary.poolAverageIntensity := toFixed 2 poolAverageIntensity;
     Summary.poolTargetIntensity := toFixed 2 poolTargetIntensity;
     Summary.poolDeviation :=
       toFixed 2 (poolAverageIntensity - poolTargetIntensity);
     Summary.poolCompliant := Pool.poolCompliant acc;
     Summary.poolComplianceScore :=
       toFixed 1 (Pool.poolComplianceScore target acc);
     Summary.poolPotentialPenalty :=
       if Qlt_bool totalComplianceBalance 0
       then toFixed 2 (Qabs totalComplianceBalance * penaltyRateFor year / 1000000)
       else 0;
     Summary.totalPotentialPenalty :=
       toFixed 2 (Totals.totalPotentialPenalty acc);
     Summary.totalVesselPenalties := None;
     Summary.complianceYear := year;
     Summary.reductionTarget := VNum (toFixed 1 (target * 100)) |}.

(** [getEmptyPoolResult]: a year without a target takes the one of 2025. *)
Definition getEmptyPoolResult (year : Z) : PoolResult :=
  let target :=
    numberOf (orElse (prop complianceTargets year)
                     (prop complianceTargets 2025%Z)) in
  {| vessels := [];
     summary :=
       {| Summary.totalVessels := 0;
          Summary.compliantVessels := 0;
          Summary.nonCompliantVessels := 0;
          Summary.complianceRate := 0;
          Summary.totalEnergyConsumption := 0;
          Summary.totalEmissions := 0;
          Summary.poolEnergyDeficit := 0;
          Summary.poolEnergySurplus := 0;
          Summary.netEnergyDeficit := 0;
          Summary.netEnergySurplus := 0;
          Summary.poolComplianceBalance := 0;
          Summary.poolComplianceDeficit := 0;
          Summary.poolComplianceSurplus := 0;
          Summary.poolPotentialPenalty := 0;
          Summary.poolAverageIntensity := 0;
          Summary.poolTargetIntensity := referenceGHGIntensity * (1 - target);
          Summary.poolDeviation := 0;
          Summary.poolCompliant := true;
          Summary.poolComplianceScore := 0;
          Summary.totalPotentialPenalty := 0;
          Summary.totalVesselPenalties := Some 0;
          Summary.complianceYear := year;
          Summary.reductionTarget := VFixed 1 (toFixed 1 (target * 100)) |} |}.

Definition calculatePoolCompliance (vessels : list Vessel) (year : Z)
  : Result PoolResult :=
  match vessels with
  | [] => Ok (getEmptyPoolResult year)
  | _ :: _ =>
      out <- mapVessels vessels year Totals.zero ;;
      let target := numberOf (prop complianceTargets year) in
      Ok {| vessels := fst out;
            summary := poolSummary (lengthOf vessels) year target (snd out) |}
  end.

(** ** calculateComplianceTrend *)

Module Trend.

Record t : Type := mk {
    year : Z;
    complianceRate : Q;
    poolCompliant : bool;
    totalPenalty : Q;
    reductionTarget : Value;
    poolAverageIntensity : Q;
    poolTargetIntensity : Q
  }.

End Trend.

(** The body of the [for] loop, [steps] years from [year] on. *)
Fixpoint trendLoop (steps : nat) (vessels : list Vessel) (year : Z)
  : Result (list Trend.t) :=
  match steps with
  | O => Ok []
  | S steps' =>
      if falsy (prop complianceTargets year)
      then trendLoop steps' vessels (year + 1)%Z
      else
        compliance <- calculatePoolCompliance vessels year ;;
        later <- trendLoop steps' vessels (year + 1)%Z ;;
        let s := summary compliance in
        Ok ({| Trend.year := year;
               Trend.complianceRate := Summary.complianceRate s;
               Trend.poolCompliant := Summary.poolCompliant s;
               Trend.totalPenalty := Summary.totalPotentialPenalty s;
               Trend.reductionTarget := Summary.reductionTarget s;
               Trend.poolAverageIntensity := Summary.poolAverageIntensity s;
               Trend.poolTargetIntensity := Summary.poolTargetIntensity s |}
              :: later)
  end.

Definition calculateComplianceTrend (vessels : list Vessel)
           (startYear endYear : Z) : Result (list Trend.t) :=
  trendLoop (Z.to_nat (endYear - startYear + 1)) vessels startYear.

(** ** suggestImprovements *)

(** A suggestion: a fixed text, or the line
    [`Target: Reduce GHG intensity by ${percent.toFixed(1)}% to
    ${target.toFixed(2)} gCO2e/MJ`] with its two numbers. *)
Inductive Suggestion : Type :=
| Text (s : string)
| TargetLine (percent target : Q).

Module Advice.

Record t : Type := mk {
    status : Status;
    requiredReduction : option Value;
    requiredReductionPercent : option Value;
    targetIntensity : option Value;
    suggestions : list Suggestion
  }.

End Advice.

Definition suggestImprovements (vessel : Vessel) (year : Z)
  : Result Advice.t :=
  compliance <- calculateVesselCompliance vessel year ;;
  if Status_eqb (status compliance) compliant
  then
    Ok {| Advice.status := compliant;
          Advice.requiredReduction := None;
          Advice.requiredReductionPercent := None;
          Advice.targetIntensity := None;
          Advice.suggestions :=
            [ Text "Vessel is already compliant. Consider maintaining current fuel efficiency." ] |}
  else
    let target := numberOf (prop complianceTargets year) in
    let targetIntensity := referenceGHGIntensity * (1 - target) in
    let requiredReduction := ghgIntensity vessel - targetIntensity in
    let requiredReductionPercent :=
      (requiredReduction / ghgIntensity vessel) * 100 in
    let tier :=
      if Qle_bool requiredReductionPercent 5
      then [ Text "Consider operational efficiency improvements (route optimization, speed management)";
             Text "Implement energy management systems" ]
      else if Qle_bool requiredReductionPercent 15
      then [ Text "Consider alternative fuel blending (biofuels, e-fuels)";
             Text "Upgrade to more efficient marine engines";
             Text "Install energy recovery systems" ]
      else [ Text "Significant fuel transition required (ammonia, hydrogen, methanol)";
             Text "Consider vessel retrofit or replacement";
             Text "Implement comprehensive decarbonization strategy" ] in
    Ok {| Advice.status := status compliance;
          Advice.requiredReduction := Some (VFixed 2 (toFixed 2 requiredReduction));
          Advice.requiredReductionPercent :=
            Some (VFixed 1 (toFixed 1 requiredReductionPercent));
          Advice.targetIntensity := Some (VFixed 2 (toFixed 2 targetIntensity));
          Advice.suggestions :=
            tier ++ [ TargetLine (toFixed 1 requiredReductionPercent)
                                 (toFixed 2 targetIntensity) ] |}.

(** ** calculateBankingBorrowing *)

Module Banking.

Record t : Type := mk {
    canBank : bool;
    bankingCapacity : Q;
    canBorrow : bool;
    borrowingCapacity : Q;
    bankingLimitMJ : Q;
    borrowingLimitMJ : Q
  }.

End Banking.

Definition calculateBankingBorrowing (vessel : Vessel) (year : Z)
  : Result Banking.t :=
  compliance <- calculateVesselCompliance vessel year ;;
  let bankingCapacity :=
    if Qlt_bool 0 (energySurplus compliance)
    then Qmin (energySurplus compliance) (fuelConsumption vessel * bankingLimit)
    else 0 in
  let borrowingCapacity :=
    if Qlt_bool 0 (energyDeficit compliance)
    then Qmin (energyDeficit compliance) (fuelConsumption vessel * borrowingLimit)
    else 0 in
  Ok {| Banking.canBank := Qlt_bool 0 bankingCapacity;
        Banking.bankingCapacity := toFixed 0 bankingCapacity;
        Banking.canBorrow := Qlt_bool 0 borrowingCapacity;
        Banking.borrowingCapacity := toFixed 0 borrowingCapacity;
        Banking.bankingLimitMJ := toFixed 0 (fuelConsumption vessel * bankingLimit);
        Banking.borrowingLimitMJ :=
          toFixed 0 (fuelConsumption vessel * borrowingLimit) |}.

(** ** Objects and references

    The calculator receives its vessels by reference.  The heap holds the
    objects the caller and the calculator have created; a vessel and the
    object [calculateVesselCompliance] returns are both property bags
    with the two numeric properties, so a result can be passed where a
    vessel is expected, as in the source. *)

Definition Ref : Type := nat.

Definition Heap : Type := list Vessel.

Definition deref (h : Heap) (r : Ref) : option Vessel := nth_error h r.

Definition alloc (h : Heap) (o : Vessel) : Heap * Ref :=
  (h ++ [o], List.length h).

(** [o[key]] on a property bag. *)
Fixpoint assoc (key : string) (props : list (string * Value)) : option Value :=
  match props with
  | [] => None
  | (k, v) :: props' => if String.eqb key k then Some v else assoc key props'
  end.

Definition getProp (key : string) (o : Vessel) : option Value :=
  if String.eqb key "fuelConsumption" then Some (VNum (fuelConsumption o))
  else if String.eqb key "ghgIntensity" then Some (VNum (ghgIntensity o))
  else assoc key (otherProps o).

(** A property written in an object literal after a spread: it replaces
    the property of that name where it stands, or is added at the end. *)
Fixpoint setProp (key : string) (v : Value) (props : list (string * Value))
  : list (string * Value) :=
  match props with
  | [] => [(key, v)]
  | (k, v') :: props' =>
      if String.eqb key k then (k, v) :: props'
      else (k, v') :: setProp key v props'
  end.

Definition statusText (s : Status) : string :=
  match s with
  | compliant => "compliant"
  | non_compliant => "non-compliant"
  end.

(** The properties the [return] statement writes after [...vessel]. *)
Definition computedProps (r : VesselResult) : list (string * Value) :=
  [ ("complianceYear", VNum (inject_Z (complianceYear r)));
    ("targetIntensity", VNum (targetIntensity r));
    ("deviation", VNum (deviation r));
    ("deviationPercent", VNum (deviationPercent r));
    ("energyDeficit", VNum (energyDeficit r));
    ("energySurplus", VNum (energySurplus r));
    ("complianceBalance", VNum (complianceBalance r));
    ("potentialPenalty", VNum (potentialPenalty r));
    ("status", VStr (statusText (status r)));
    ("complianceScore", VNum (complianceScore r)) ]%string.

Definition computedKeys : list string :=
  [ "complianceYear"; "targetIntensity"; "deviation"; "deviationPercent";
    "energyDeficit"; "energySurplus"; "complianceBalance";
    "potentialPenalty"; "status"; "complianceScore" ]%string.

(** The object literal [{...vessel, complianceYear: year, ...}]. *)
Definition toObject (r : VesselResult) : Vessel :=
  {| fuelConsumption := fuelConsumption (spread r);
     ghgIntensity := ghgIntensity (spread r);
     otherProps :=
       fold_left (fun props kv => setProp (fst kv) (snd kv) props)
                 (computedProps r) (otherProps (spread r)) |}.

(** A call of [calculateVesselCompliance] on a reference: the year is
    checked, the properties of the vessel are read, and the result is a
    new object; the call gives its reference, here with the values the
    object holds. *)
Definition callAt (h : Heap) (vessel : Ref) (year : Z)
  : Heap * Result (Ref * VesselResult) :=
  if falsy (prop complianceTargets year)
  then (h, Throw (InvalidYear year))
  else
    match deref h vessel with
    | None => (h, Throw TypeError)
    | Some v =>
        match calculateVesselCompliance v year with
        | Throw e => (h, Throw e)
        | Ok r => let (h', ref) := alloc h (toObject r) in (h', Ok (ref, r))
        end
    end.

Definition calculateVesselComplianceAt (h : Heap) (vessel : Ref) (year : Z)
  : Heap * Result Ref :=
  match callAt h vessel year with
  | (h', Ok out) => (h', Ok (fst out))
  | (h', Throw e) => (h', Throw e)
  end.

(** The loop of [calculatePoolCompliance] on an array of references:
    the callback calls [calculateVesselCompliance] and then reads the
    vessel again for the totals. *)
Fixpoint mapVesselsAt (h : Heap) (vessels : list Ref) (year : Z)
         (acc : Totals.t) : Heap * Result (list Ref * Totals.t) :=
  match vessels with
  | [] => (h, Ok ([], acc))
  | vessel :: rest =>
      match callAt h vessel year with
      | (h1, Throw e) => (h1, Throw e)
      | (h1, Ok (ref, result)) =>
          match deref h1 vessel with
          | None => (h1, Throw TypeError)
          | Some v =>
              match mapVesselsAt h1 rest year (accumulate v result acc) with
              | (h2, Ok out) => (h2, Ok (ref :: fst out, snd out))
              | (h2, Throw e) => (h2, Throw e)
              end
          end
      end
  end.

(** What [calculatePoolCompliance] returns for an array of references:
    the references of the results and the summary. *)
Definition calculatePoolComplianceAt (h : Heap) (vessels : list Ref) (year : Z)
  : Heap * Result (list Ref * Summary.t) :=
  match vessels with
  | [] => (h, Ok ([], summary (getEmptyPoolResult year)))
  | _ :: _ =>
      match mapVesselsAt h vessels year Totals.zero with
      | (h', Throw e) => (h', Throw e)
      | (h', Ok out) =>
          let target := numberOf (prop complianceTargets year) in
          (h', Ok (fst out,
                   poolSummary (lengthOf vessels) year target (snd out)))
      end
  end.

(** ** Vocabulary of the statements *)

Fixpoint Qsum (l : list Q) : Q :=
  match l with
  | [] => 0
  | x :: l' => x + Qsum l'
  end.

(** The target of a year and the intensity it allows, as
    [calculateVesselCompliance] and [calculatePoolCompliance] compute
    them after the year has been checked. *)
Definition targetOf (year : Z) : Q := numberOf (prop complianceTargets year).

Definition targetIntensityOf (year : Z) : Q :=
  Calc.targetIntensity (targetOf year).

(** The fuel-weighted mean intensity of a list of vessels. *)
Definition weightedMean (fleet : list Vessel) : Q :=
  Qsum (map (fun v => fuelConsumption v * ghgIntensity v) fleet)
  / Qsum (map fuelConsumption fleet).

(** The sum of the unrounded balances of a list of vessels. *)
Definition unroundedBalance (year : Z) (fleet : list Vessel) : Q :=
  Qsum (map (Calc.complianceBalance (targetIntensityOf year)) fleet).

(** A number with at most [d] decimals. *)
Definition decimals (d : nat) (q : Q) : Prop :=
  exists n : Z, q == inject_Z n / pow10 d.

(** One turn of the loop of [calculatePoolCompliance] in a valid year:
    the result of the vessel is computed and added to the totals. *)
Definition turn (year : Z) (acc : Totals.t) (vessel : Vessel) : Totals.t :=
  accumulate vessel
             (vesselResult vessel year (numberOf (prop complianceTargets year)))
             acc.

(** Every object of [h] is still in [h'], where it was and as it was. *)
Definition unchanged (h h' : Heap) : Prop :=
  forall (r : Ref) (o : Vessel), deref h r = Some o -> deref h' r = Some o.

(** The object [o] has every property of [v], with its value, except
    for the names the [return] statement writes. *)
Definition forwards (v o : Vessel) : Prop :=
  forall key : string,
    ~ In key computedKeys -> getProp key o = getProp key v.

(** The object at [ref'] in [h'] forwards the vessel at [ref] in [h]. *)
Definition forwardedAt (h h' : Heap) (ref ref' : Ref) : Prop :=
  exists v o,
    deref h ref = Some v /\ deref h' ref' = Some o /\ forwards v o.

(** The properties the specification calls identity and metadata, as
    the vessel registry names them, and the two inputs. *)
Definition forwardedKeys : list string :=
  [ "id"; "name"; "imo"; "type"; "pool"; "owner"; "dateAdded";
    "lastUpdated"; "fuelConsumption"; "ghgIntensity" ]%string.

(** ** Sample data

    Three vessels of the sample data of the vessel registry (without
    their two dates), and four vessels made for the statements. *)

(** Med Princess: 28000 MJ at 95.12 gCO2e/MJ, above every target. *)
Definition medPrincess : Vessel :=
  mkVessel 28000 (9512 # 100)
           [ ("id", VNum 3); ("name", VStr "Med Princess");
             ("imo", VStr "3456789"); ("type", VStr "passenger");
             ("status", VStr "non-compliant"); ("owner", VStr "user2");
             ("pool", VStr "Pool B") ]%string.

(** Pacific Trader: 52000 MJ at 87.55 gCO2e/MJ, below the target of
    2025 (89.3368). *)
Definition pacificTrader : Vessel :=
  mkVessel 52000 (8755 # 100)
           [ ("id", VNum 4); ("name", VStr "Pacific Trader");
             ("imo", VStr "4567890"); ("type", VStr "container");
             ("status", VStr "compliant"); ("owner", VStr "user2");
             ("pool", VStr "Pool B") ]%string.

(** Baltic Voyager; the registry stores a status of its own with it. *)
Definition balticVoyager : Vessel :=
  mkVessel 38000 (9128 # 100)
           [ ("id", VNum 5); ("name", VStr "Baltic Voyager");
             ("imo", VStr "5678901"); ("type", VStr "tanker");
             ("status", VStr "at-risk"); ("owner", VStr "admin");
             ("pool", VStr "Pool A") ]%string.

Definition poolB : list Vessel := [ medPrincess; pacificTrader ].

Definition registry : Heap := [ medPrincess; pacificTrader; balticVoyager ].

(** A vessel just above the target of 2025: its unrounded balance is
    -0.002844 tCO2eq. *)
Definition slightlyOver : Vessel := mkVessel 45000 (894 # 10) [].

(** A small clean vessel and a large dirty one. *)
Definition smallClean : Vessel := mkVessel 1000 80 [].
Definition largeDirty : Vessel := mkVessel 9000 100 [].

(** A vessel with a large consumption, above every target. *)
Definition heavyEmitter : Vessel := mkVessel 5000000000 (9512 # 100) [].

From Stdlib Require Import Permutation Sorted.

(** ** validateInputs *)

(** An entry of the list [validateInputs] returns: a fixed text, or
    [`Invalid compliance year: ${year}`]. *)
Inductive Message : Type :=
| Msg (s : string)
| InvalidYearMsg (year : Z).

(** [!x || x <= 0] for a number. *)
Definition notPositive (x : Q) : bool := Qeq_bool x 0 || Qle_bool x 0.

(** The vessel may be missing ([null] or [undefined]). *)
Definition validateInputs (vessel : option Vessel) (year : Z) : list Message :=
  match vessel with
  | None => [ Msg "Vessel data is required" ]
  | Some v =>
      (if notPositive (fuelConsumption v)
       then [ Msg "Valid fuel consumption is required" ] else [])
      ++ (if notPositive (ghgIntensity v)
          then [ Msg "Valid GHG intensity is required" ] else [])
      ++ (if falsy (prop complianceTargets year)
          then [ InvalidYearMsg year ] else [])
  end.

(** ** getAvailableYears *)

Module AvailableYear.

Record t : Type := mk {
  year : Z;
  target : Q;
  targetPercent : Value
}.

End AvailableYear.

(** [Object.keys] of a table whose literal lists distinct integer keys in
    increasing order, which is the order [Object.keys] gives them in. *)
Definition keys (t : Table) : list Z := map fst t.

Definition getAvailableYears : list AvailableYear.t :=
  map (fun year =>
         {| AvailableYear.year := year;
            AvailableYear.target := numberOf (prop complianceTargets year);
            AvailableYear.targetPercent :=
              VFixed 1 (toFixed 1 (numberOf (prop complianceTargets year)
                                   * 100)) |})
      (keys complianceTargets).

(** ** More vocabulary *)

(** The three lists of suggestions of [suggestImprovements] and the one
    for a compliant vessel. *)
Definition maintainAdvice : list Suggestion :=
  [ Text "Vessel is already compliant. Consider maintaining current fuel efficiency." ].

Definition operationalTier : list Suggestion :=
  [ Text "Consider operational efficiency improvements (route optimization, speed management)";
    Text "Implement energy management systems" ].

Definition blendingTier : list Suggestion :=
  [ Text "Consider alternative fuel blending (biofuels, e-fuels)";
    Text "Upgrade to more efficient marine engines";
    Text "Install energy recovery systems" ].

Definition transitionTier : list Suggestion :=
  [ Text "Significant fuel transition required (ammonia, hydrogen, methanol)";
    Text "Consider vessel retrofit or replacement";
    Text "Implement comprehensive decarbonization strategy" ].

(** [result.status === 'compliant'] *)
Definition isCompliant (r : VesselResult) : bool :=
  Status_eqb (status r) compliant.

(** The years [start], [start + 1], ..., [n] of them. *)
Fixpoint yearsFrom (start : Z) (n : nat) : list Z :=
  match n with
  | O => []
  | S n' => start :: yearsFrom (start + 1) n'
  end.

(** The entry [calculateComplianceTrend] pushes for a year, from the
    summary of that year. *)
Definition trendEntry (year : Z) (s : Summary.t) : Trend.t :=
  {| Trend.year := year;
     Trend.complianceRate := Summary.complianceRate s;
     Trend.poolCompliant := Summary.poolCompliant s;
     Trend.totalPenalty := Summary.totalPotentialPenalty s;
     Trend.reductionTarget := Summary.reductionTarget s;
     Trend.poolAverageIntensity := Summary.poolAverageIntensity s;
     Trend.poolTargetIntensity := Summary.poolTargetIntensity s |}.

(** Two totals that hold the same numbers. *)
Definition sameTotals (a b : Totals.t) : Prop :=
  Totals.totalEnergyConsumption a == Totals.totalEnergyConsumption b /\
  Totals.totalEmissions a == Totals.totalEmissions b /\
  Totals.totalEnergyDeficit a == Totals.totalEnergyDeficit b /\
  Totals.totalEnergySurplus a == Totals.totalEnergySurplus b /\
  Totals.totalComplianceBalance a == Totals.totalComplianceBalance b /\
  Totals.totalPotentialPenalty a == Totals.totalPotentialPenalty b /\
  Totals.compliantCount a = Totals.compliantCount b /\
  Totals.nonCompliantCount a = Totals.nonCompliantCount b /\
  Totals.totalDeficitFromVessels a == Totals.totalDeficitFromVessels b /\
  Totals.totalSurplusFromVessels a == Totals.totalSurplusFromVessels b.

(** The fields of two summaries that are counts, or that come from
    sums of numbers with two decimals or with none.  Such a sum is exact
    in whatever order it is taken; a sum over the unrounded inputs, in
    floating point, can depend on the order in its last bits. *)
Definition sameCountsAndSums (a b : Summary.t) : Prop :=
  Summary.totalVessels a = Summary.totalVessels b /\
  Summary.compliantVessels a = Summary.compliantVessels b /\
  Summary.nonCompliantVessels a = Summary.nonCompliantVessels b /\
  Summary.complianceRate a == Summary.complianceRate b /\
  Summary.poolEnergyDeficit a == Summary.poolEnergyDeficit b /\
  Summary.poolEnergySurplus a == Summary.poolEnergySurplus b /\
  Summary.netEnergyDeficit a == Summary.netEnergyDeficit b /\
  Summary.netEnergySurplus a == Summary.netEnergySurplus b /\
  Summary.poolComplianceBalance a == Summary.poolComplianceBalance b /\
  Summary.poolComplianceDeficit a == Summary.poolComplianceDeficit b /\
  Summary.poolComplianceSurplus a == Summary.poolComplianceSurplus b /\
  Summary.poolTargetIntensity a == Summary.poolTargetIntensity b /\
  Summary.totalPotentialPenalty a == Summary.totalPotentialPenalty b /\
  Summary.complianceYear a = Summary.complianceYear b.

(** Two vessels below the target of 2025. *)
Definition cleanFleet : list Vessel := [ smallClean; pacificTrader ].

(** What a vessel adds to the four money and balance totals of the pool:
    its returned balance, the deficit and surplus parts of it, and its
    returned penalty. *)
Definition balanceOf (year : Z) (v : Vessel) : Q :=
  toFixed 2 (Calc.complianceBalance (targetIntensityOf year) v).

Definition deficitOf (year : Z) (v : Vessel) : Q :=
  if Qlt_bool (balanceOf year v) 0 then Qabs (balanceOf year v) else 0.

Definition surplusOf (year : Z) (v : Vessel) : Q :=
  if Qlt_bool 0 (balanceOf year v) then balanceOf year v else 0.

Definition penaltyOf (year : Z) (v : Vessel) : Q :=
  toFixed 2 (Calc.potentialPenalty (penaltyRateFor year)
                                   (targetIntensityOf year) v).

(** The summary [calculatePoolCompliance] returns for a year with a
    target (for another year the empty summary stands in: the trend never
    asks for one). *)
Definition summaryFor (fleet : list Vessel) (year : Z) : Summary.t :=
  match calculatePoolCompliance fleet year with
  | Ok p => summary p
  | Throw _ => summary (getEmptyPoolResult year)
  end.

(** The years of a range that have a target, in increasing order. *)
Definition validYearsOf (startYear endYear : Z) : list Z :=
  filter validYear (yearsFrom startYear (Z.to_nat (endYear - startYear + 1))).

(** Vessels above the target of 2025. *)
Definition dirtyFleet : list Vessel := [ medPrincess; largeDirty ].

(** * Properties *)

(** ** Comparisons and rounding *)

Lemma Qlt_bool_iff (a b : Q) : Qlt_bool a b = true <-> a < b.
Proof.
  unfold Qlt_bool. rewrite negb_true_iff.
  split; intro H.
  - apply Qnot_le_lt. intro Hle. apply Qle_bool_iff in Hle. congruence.
  - destruct (Qle_bool b a) eqn:E; [| reflexivity].
    apply Qle_bool_iff in E. exfalso. apply (Qlt_not_le _ _ H E).
Qed.

Lemma Qlt_bool_false_iff (a b : Q) : Qlt_bool a b = false <-> b <= a.
Proof.
  unfold Qlt_bool. rewrite negb_false_iff. apply Qle_bool_iff.
Qed.

Lemma Qle_bool_false_iff (a b : Q) : Qle_bool a b = false <-> b < a.
Proof.
  rewrite <- Qlt_bool_iff. unfold Qlt_bool.
  destruct (Qle_bool a b); simpl; intuition congruence.
Qed.

#[global] Instance Qlt_bool_comp : Proper (Qeq ==> Qeq ==> eq) Qlt_bool.
Proof.
  intros a a' Ha b b' Hb. unfold Qlt_bool. now rewrite Ha, Hb.
Qed.

(** Case analysis on the tests of the source. *)
Ltac by_cases_on c :=
  let E := fresh "E" in
  destruct c eqn:E;
  [ try (apply Qle_bool_iff in E); try (apply Qlt_bool_iff in E)
  | try (apply Qle_bool_false_iff in E); try (apply Qlt_bool_false_iff in E) ].

Ltac split_max :=
  repeat match goal with
  | |- context [Qmax ?a ?b] =>
      let H := fresh "Hmax" in
      destruct (Q.max_spec a b) as [[? H] | [? H]]; rewrite H; clear H
  | |- context [Qmin ?a ?b] =>
      let H := fresh "Hmin" in
      destruct (Q.min_spec a b) as [[? H] | [? H]]; rewrite H; clear H
  end.

Lemma pow10_pos (d : nat) : 0 < pow10 d.
Proof.
  unfold pow10. replace 0 with (inject_Z 0) by reflexivity.
  rewrite <- Zlt_Qlt. apply Z.pow_pos_nonneg; lia.
Qed.

Lemma roundHalfAway_mono (x y : Q) :
  x <= y -> (roundHalfAway x <= roundHalfAway y)%Z.
Proof.
  intro Hxy. unfold roundHalfAway.
  by_cases_on (Qle_bool 0 x); by_cases_on (Qle_bool 0 y).
  - apply Qfloor_resp_le. lra.
  - lra.
  - assert (H0 : forall z : Q, 0 <= z -> (0 <= Qfloor z)%Z).
    { intros z Hz. rewrite <- (Qfloor_Z 0). apply Qfloor_resp_le. exact Hz. }
    pose proof (H0 (y + (1 # 2)) ltac:(lra)).
    pose proof (H0 (- x + (1 # 2)) ltac:(lra)).
    lia.
  - apply Z.opp_le_mono. rewrite !Z.opp_involutive.
    apply Qfloor_resp_le. lra.
Qed.

Lemma roundHalfAway_Z (n : Z) : roundHalfAway (inject_Z n) = n.
Proof.
  unfold roundHalfAway.
  assert (Hfl : forall m : Z, Qfloor (inject_Z m + (1 # 2)) = m).
  { intro m.
    pose proof (Qfloor_le (inject_Z m + (1 # 2))) as Hlo.
    pose proof (Qlt_floor (inject_Z m + (1 # 2))) as Hhi.
    set (k := Qfloor (inject_Z m + (1 # 2))) in *.
    rewrite inject_Z_plus in Hhi. change (inject_Z 1) with 1 in Hhi.
    assert (inject_Z k < inject_Z (m + 1)).
    { rewrite inject_Z_plus. change (inject_Z 1) with 1. lra. }
    assert (inject_Z m < inject_Z (k + 1)).
    { rewrite inject_Z_plus. change (inject_Z 1) with 1. lra. }
    rewrite <- Zlt_Qlt in *. lia. }
  by_cases_on (Qle_bool 0 (inject_Z n)).
  - apply Hfl.
  - rewrite <- inject_Z_opp, Hfl. lia.
Qed.

#[global] Instance roundHalfAway_comp : Proper (Qeq ==> eq) roundHalfAway.
Proof.
  intros x y Hxy. unfold roundHalfAway.
  rewrite (Qleb_comp 0 0 (Qeq_refl 0) x y Hxy).
  destruct (Qle_bool 0 y).
  - apply Qfloor_comp. now rewrite Hxy.
  - f_equal. apply Qfloor_comp. now rewrite Hxy.
Qed.

#[global] Instance toFixed_comp (d : nat) : Proper (Qeq ==> Qeq) (toFixed d).
Proof.
  intros x y Hxy. unfold toFixed. rewrite Hxy. reflexivity.
Qed.

(** Rounding keeps the order. *)
Lemma toFixed_mono (d : nat) (x y : Q) : x <= y -> toFixed d x <= toFixed d y.
Proof.
  intro Hxy. unfold toFixed.
  pose proof (pow10_pos d) as Hp.
  apply Qmult_le_compat_r.
  - rewrite <- Zle_Qle. apply roundHalfAway_mono.
    apply Qmult_le_compat_r; lra.
  - apply Qlt_le_weak, Qinv_lt_0_compat, Hp.
Qed.

(** A multiple of 10^-d is its own rounding to [d] decimals. *)
Lemma toFixed_multiple (d : nat) (n : Z) :
  toFixed d (inject_Z n / pow10 d) == inject_Z n / pow10 d.
Proof.
  unfold toFixed.
  pose proof (pow10_pos d) as Hp.
  assert (E : inject_Z n / pow10 d * pow10 d == inject_Z n).
  { field. lra. }
  rewrite E, roundHalfAway_Z. reflexivity.
Qed.

Lemma toFixed_Z (d : nat) (n : Z) : toFixed d (inject_Z n) == inject_Z n.
Proof.
  unfold toFixed, pow10.
  assert (E : inject_Z n * inject_Z (10 ^ Z.of_nat d)
              == inject_Z (n * 10 ^ Z.of_nat d)).
  { rewrite inject_Z_mult. reflexivity. }
  rewrite E, roundHalfAway_Z, inject_Z_mult.
  pose proof (pow10_pos d) as Hp. unfold pow10 in Hp.
  field. lra.
Qed.

Lemma toFixed_0 (d : nat) : toFixed d 0 == 0.
Proof. exact (toFixed_Z d 0). Qed.

Lemma toFixed_nonneg (d : nat) (x : Q) : 0 <= x -> 0 <= toFixed d x.
Proof.
  intro H. rewrite <- (toFixed_0 d). now apply toFixed_mono.
Qed.


(** Rounding moves a number by at most half a unit of the last decimal
    kept.  The source rounds a binary floating-point number, whose value
    can differ from the exact one in its last bits, so that at a tie it
    may round to the other side; a statement that is to hold of the
    returned number whichever way a tie goes uses the bound of one whole
    unit, [toFixed_within]. *)
Lemma roundHalfAway_close (x : Q) :
  Qabs (inject_Z (roundHalfAway x) - x) <= 1 # 2.
Proof.
  assert (Hfl : forall y : Q, Qabs (inject_Z (Qfloor (y + (1 # 2))) - y) <= 1 # 2).
  { intro y.
    pose proof (Qfloor_le (y + (1 # 2))) as Hlo.
    pose proof (Qlt_floor (y + (1 # 2))) as Hhi.
    rewrite inject_Z_plus in Hhi. change (inject_Z 1) with 1 in Hhi.
    apply Qabs_Qle_condition. split; lra. }
  unfold roundHalfAway. destruct (Qle_bool 0 x).
  - apply Hfl.
  - rewrite inject_Z_opp.
    assert (E : - inject_Z (Qfloor (- x + (1 # 2))) - x
                == - (inject_Z (Qfloor (- x + (1 # 2))) - - x)) by ring.
    rewrite E, Qabs_opp. apply Hfl.
Qed.

Lemma toFixed_close (d : nat) (x : Q) :
  Qabs (toFixed d x - x) <= (1 # 2) / pow10 d.
Proof.
  pose proof (pow10_pos d) as Hp.
  pose proof (roundHalfAway_close (x * pow10 d)) as Hr.
  unfold toFixed.
  assert (E : inject_Z (roundHalfAway (x * pow10 d)) / pow10 d - x
              == (inject_Z (roundHalfAway (x * pow10 d)) - x * pow10 d)
                 / pow10 d).
  { field. lra. }
  rewrite E. unfold Qdiv. rewrite Qabs_Qmult.
  rewrite (Qabs_pos (/ pow10 d))
    by (apply Qlt_le_weak, Qinv_lt_0_compat, Hp).
  apply Qmult_le_compat_r; [ exact Hr |].
  apply Qlt_le_weak, Qinv_lt_0_compat, Hp.
Qed.

Lemma toFixed_within (d : nat) (x : Q) :
  Qabs (toFixed d x - x) < 1 / pow10 d.
Proof.
  pose proof (pow10_pos d) as Hp.
  apply Qle_lt_trans with (1 := toFixed_close d x).
  unfold Qdiv. apply Qmult_lt_compat_r;
    [ apply Qinv_lt_0_compat, Hp | reflexivity ].
Qed.

Lemma toFixed_within_0 (x : Q) : Qabs (toFixed 0 x - x) < 1.
Proof. exact (toFixed_within 0 x). Qed.

Lemma toFixed_within_1 (x : Q) : Qabs (toFixed 1 x - x) < 1 # 10.
Proof. exact (toFixed_within 1 x). Qed.

Lemma toFixed_within_2 (x : Q) : Qabs (toFixed 2 x - x) < 1 # 100.
Proof. exact (toFixed_within 2 x). Qed.

(** ** The tables *)

Lemma validYear_target (year : Z) :
  validYear year = true ->
  prop complianceTargets year = Some (2 # 100) \/
  prop complianceTargets year = Some (6 # 100).
Proof.
  unfold validYear, complianceTargets. simpl.
  repeat (destruct (Z.eqb year _); [ auto |]).
  discriminate.
Qed.

Lemma validYear_falsy (year : Z) :
  validYear year = true -> falsy (prop complianceTargets year) = false.
Proof.
  unfold validYear. now rewrite negb_true_iff.
Qed.

(** The target intensity of a valid year is positive. *)
Lemma targetIntensity_pos (year : Z) :
  validYear year = true ->
  0 < Calc.targetIntensity (numberOf (prop complianceTargets year)).
Proof.
  intro Hy. destruct (validYear_target year Hy) as [E | E];
    rewrite E; reflexivity.
Qed.

(** ** The score *)

Section Score.

Variable t : Q.
Hypothesis t_pos : 0 < t.

Lemma ratio_nonneg (x : Q) : 0 <= x -> 0 <= x / t.
  Proof. intro H. apply Qle_shift_div_l; [ exact t_pos | lra ]. Qed.

Lemma ratio_pos (x : Q) : 0 < x -> 0 < x / t.
  Proof. intro H. apply Qlt_shift_div_l; [ exact t_pos | lra ]. Qed.

Lemma ratio_mono (x y : Q) : x <= y -> x / t <= y / t.
  Proof.
    intro H. apply Qmult_le_compat_r; [ exact H |].
    apply Qlt_le_weak, Qinv_lt_0_compat, t_pos.
  Qed.

Lemma ratio_strict (x y : Q) : x < y -> x / t < y / t.
  Proof.
    intro H. apply Qmult_lt_compat_r; [| exact H ].
    apply Qinv_lt_0_compat, t_pos.
  Qed.

Lemma bonusScore_saturated (a : Q) : a <= t -> bonusScore a t == 100.
  Proof.
    intro Ha. unfold bonusScore.
    pose proof (ratio_nonneg (t - a) ltac:(lra)).
    split_max; lra.
  Qed.

Lemma penaltyScore_at_target : penaltyScore t t == 100.
  Proof.
    unfold penaltyScore.
    assert (E : (t - t) / t == 0) by (field; lra).
    rewrite E. reflexivity.
  Qed.

Lemma score_compliant (a : Q) : a <= t -> calculateComplianceScore a t == 100.
  Proof.
    intro Ha. unfold calculateComplianceScore.
    apply Qle_bool_iff in Ha. rewrite Ha. apply Qle_bool_iff in Ha.
    now apply bonusScore_saturated.
  Qed.

Lemma score_deficit (a : Q) :
    t < a -> calculateComplianceScore a t == penaltyScore a t.
  Proof.
    intro Ha. unfold calculateComplianceScore.
    apply Qle_bool_false_iff in Ha. now rewrite Ha.
  Qed.

Lemma score_deficit_range (a : Q) :
    t < a -> 0 <= calculateComplianceScore a t < 100.
  Proof.
    intro Ha. rewrite (score_deficit a Ha). unfold penaltyScore.
    pose proof (ratio_pos (a - t) ltac:(lra)).
    split_max; lra.
  Qed.

Lemma score_floor (a : Q) : 2 * t <= a -> calculateComplianceScore a t == 0.
  Proof.
    intro Ha. rewrite (score_deficit a ltac:(lra)). unfold penaltyScore.
    assert (1 <= (a - t) / t).
    { apply Qle_shift_div_l; [ exact t_pos | lra ]. }
    split_max; lra.
  Qed.

Lemma score_range (a : Q) : 0 <= calculateComplianceScore a t <= 100.
  Proof.
    destruct (Qlt_le_dec t a) as [H | H].
    - pose proof (score_deficit_range a H). lra.
    - rewrite (score_compliant a H). lra.
  Qed.

  (** Below 100 the score is at least the line through (t, 100) with
      slope -100/t. *)
Lemma score_above_line (a : Q) :
    100 - (a - t) / t * 100 <= calculateComplianceScore a t \/
    calculateComplianceScore a t == 100.
  Proof.
    destruct (Qlt_le_dec t a) as [H | H].
    - left. rewrite (score_deficit a H). unfold penaltyScore. apply Q.le_max_r.
    - right. now apply score_compliant.
  Qed.

Lemma score_mono (a b : Q) :
    a <= b -> calculateComplianceScore b t <= calculateComplianceScore a t.
  Proof.
    intro Hab.
    destruct (Qlt_le_dec t a) as [Ha | Ha].
    - rewrite (score_deficit a Ha), (score_deficit b ltac:(lra)).
      unfold penaltyScore.
      pose proof (ratio_mono (a - t) (b - t) ltac:(lra)).
      apply Q.max_le_compat_l. lra.
    - rewrite (score_compliant a Ha).
      pose proof (score_range b). lra.
  Qed.

  (** Between the target and twice the target the score is strict. *)
Lemma score_strict (a b : Q) :
    t <= a -> a < b -> b <= 2 * t ->
    calculateComplianceScore b t < calculateComplianceScore a t.
  Proof.
    intros Ha Hab Hb.
    rewrite (score_deficit b ltac:(lra)).
    pose proof (ratio_strict (a - t) (b - t) ltac:(lra)) as Hs.
    assert (Hb1 : (b - t) / t <= 1).
    { apply Qle_shift_div_r; [ exact t_pos | lra ]. }
    assert (Eb : penaltyScore b t == 100 - (b - t) / t * 100).
    { unfold penaltyScore. apply Q.max_r. lra. }
    rewrite Eb.
    pose proof (ratio_pos (b - t) ltac:(lra)).
    destruct (score_above_line a) as [H' | H']; lra.
  Qed.

  (** The score moves by at most 100/t per unit of intensity. *)
Lemma score_lipschitz (a b : Q) :
    a <= b ->
    calculateComplianceScore a t - calculateComplianceScore b t
    <= (b - a) / t * 100.
  Proof.
    intro Hab.
    pose proof (ratio_nonneg (b - a) ltac:(lra)) as Hr.
    assert (Ediv : (b - a) / t == (b - t) / t - (a - t) / t) by (field; lra).
    destruct (Qlt_le_dec t b) as [Hb | Hb].
    - pose proof (score_range a) as Ra.
      assert (Lb : 100 - (b - t) / t * 100 <= calculateComplianceScore b t).
      { rewrite (score_deficit b Hb). apply Q.le_max_r. }
      destruct (Qlt_le_dec t a) as [Ha | Ha].
      + rewrite (score_deficit a Ha) in *. unfold penaltyScore in *.
        pose proof (ratio_mono (a - t) (b - t) ltac:(lra)).
        destruct (Q.max_spec 0 (100 - (a - t) / t * 100)) as [[? E] | [? E]];
          rewrite E in *; clear E.
        * lra.
        * pose proof (score_range b). lra.
      + rewrite (score_compliant a Ha) in *.
        pose proof (ratio_mono (a - t) 0 ltac:(lra)) as H0.
        assert (E0 : 0 / t == 0) by (field; lra).
        lra.
    - rewrite (score_compliant a ltac:(lra)), (score_compliant b Hb). lra.
  Qed.

End Score.

(** C4.  For a positive target intensity both branches of the score give
    exactly 100 where the actual intensity equals the target; the score is
    exactly 100 for every actual intensity at or below the target (the
    capped bonus); above the target it lies in [0, 100) and is 0 from
    twice the target on; and it is continuous: between two intensities it
    moves by at most 100/target per unit, so it tends to 100 at the
    boundary. *)
Theorem score_continuous_and_saturated (t : Q) (t_pos : 0 < t) :
  bonusScore t t == 100 /\
  penaltyScore t t == 100 /\
  (forall a, a <= t -> calculateComplianceScore a t == 100) /\
  (forall a, t < a -> 0 <= calculateComplianceScore a t < 100) /\
  (forall a, 2 * t <= a -> calculateComplianceScore a t == 0) /\
  (forall a b, a <= b ->
     0 <= calculateComplianceScore a t - calculateComplianceScore b t
       <= (b - a) / t * 100).
Proof.
  repeat split.
  - apply bonusScore_saturated; [ exact t_pos | lra ].
  - now apply penaltyScore_at_target.
  - intros a Ha. now apply score_compliant.
  - now apply score_deficit_range.
  - now apply score_deficit_range.
  - intros a Ha. now apply score_floor.
  - pose proof (score_mono t t_pos a b H). lra.
  - now apply score_lipschitz.
Qed.

(** The theorem at the target intensity of 2025. *)
Lemma score_continuous_and_saturated_witness :
  0 < Calc.targetIntensity (2 # 100) /\
  calculateComplianceScore (Calc.targetIntensity (2 # 100))
                           (Calc.targetIntensity (2 # 100)) == 100.
Proof.
  split.
  - reflexivity.
  - apply (score_continuous_and_saturated (Calc.targetIntensity (2 # 100))).
    + reflexivity.
    + apply Qle_refl.
Defined.

(** ** One vessel *)

(** For a valid year the call returns, and returns the object of the
    [return] statement. *)
Lemma calculateVesselCompliance_ok (vessel : Vessel) (year : Z) :
  validYear year = true ->
  calculateVesselCompliance vessel year
  = Ok (vesselResult vessel year (numberOf (prop complianceTargets year))).
Proof.
  intro Hy. unfold calculateVesselCompliance.
  now rewrite (validYear_falsy year Hy).
Qed.

Lemma calculateVesselCompliance_throws (vessel : Vessel) (year : Z) :
  validYear year = false ->
  calculateVesselCompliance vessel year = Throw (InvalidYear year).
Proof.
  unfold validYear, calculateVesselCompliance. rewrite negb_false_iff.
  now intros ->.
Qed.

(** The unrounded balance falls strictly when the intensity rises. *)
Lemma complianceBalance_strict (ti f g1 g2 : Q) (p1 p2 : list (string * Value)) :
  0 < f -> g1 < g2 ->
  Calc.complianceBalance ti (mkVessel f g2 p2)
  < Calc.complianceBalance ti (mkVessel f g1 p1).
Proof.
  intros Hf Hg. unfold Calc.complianceBalance, Calc.deviation. simpl.
  unfold Qdiv. apply Qmult_lt_compat_r; [ reflexivity |].
  apply Qmult_lt_compat_r; lra.
Qed.

(** The two energy values the code computes are the positive parts of
    one product and of its opposite: the one named deficit is positive
    when the vessel is below the target. *)
Lemma energy_sides (ti : Q) (vessel : Vessel) :
  Calc.energyDeficit ti vessel
  == Qmax 0 (fuelConsumption vessel * (ti - ghgIntensity vessel)) /\
  Calc.energySurplus ti vessel
  == Qmax 0 (fuelConsumption vessel * (ghgIntensity vessel - ti)).
Proof.
  unfold Calc.energyDeficit, Calc.energySurplus, Calc.deviation.
  split; apply Q.max_compat; try reflexivity; ring.
Qed.

(** Whatever the side, the two returned energy values are not negative,
    at most one of them is not zero, and both are zero at the target. *)
Lemma energy_exclusive (vessel : Vessel) (year : Z) :
  validYear year = true ->
  exists r,
    calculateVesselCompliance vessel year = Ok r /\
    0 <= energyDeficit r /\ 0 <= energySurplus r /\
    (energyDeficit r == 0 \/ energySurplus r == 0) /\
    (ghgIntensity vessel == targetIntensityOf year ->
     energyDeficit r == 0 /\ energySurplus r == 0).
Proof.
  intro Hy. eexists.
  split; [ apply (calculateVesselCompliance_ok vessel year Hy) |].
  cbn [energyDeficit energySurplus vesselResult].
  change (Calc.targetIntensity (numberOf (prop complianceTargets year)))
    with (targetIntensityOf year).
  set (ti := targetIntensityOf year).
  set (x := Calc.deviation ti vessel * fuelConsumption vessel).
  assert (Ed : Calc.energyDeficit ti vessel == Qmax 0 x) by reflexivity.
  assert (Es : Calc.energySurplus ti vessel == Qmax 0 (- x)).
  { unfold Calc.energySurplus, x. apply Q.max_compat; [ reflexivity | ring ]. }
  rewrite Ed, Es.
  split; [ apply toFixed_nonneg, Q.le_max_l |].
  split; [ apply toFixed_nonneg, Q.le_max_l |].
  split.
  - destruct (Qlt_le_dec 0 x) as [Hx | Hx].
    + right. rewrite Q.max_l by lra. apply toFixed_0.
    + left. rewrite Q.max_l by lra. apply toFixed_0.
  - intro Heq.
    assert (Hx : x == 0).
    { unfold x, Calc.deviation. rewrite Heq. ring. }
    rewrite Hx. split; apply toFixed_0.
Qed.

(** C1.  At a vessel that is cleaner than the target the code returns the
    energy values on the opposite sides of where the formulas
    [energyDeficit = max(0, fuel * (ghg - target))] and
    [energySurplus = max(0, fuel * (target - ghg))] put them: the
    compliant vessel gets a deficit of 92914 MJ and no surplus, and
    [calculateBankingBorrowing] lets it borrow and not bank. *)
Theorem energy_sides_swapped_at_pacificTrader :
  exists r b,
    calculateVesselCompliance pacificTrader 2025 = Ok r /\
    calculateBankingBorrowing pacificTrader 2025 = Ok b /\
    status r = compliant /\
    Qmax 0 (fuelConsumption pacificTrader
            * (ghgIntensity pacificTrader - targetIntensityOf 2025)) == 0 /\
    toFixed 0 (Qmax 0 (fuelConsumption pacificTrader
                       * (targetIntensityOf 2025 - ghgIntensity pacificTrader)))
    == 92914 /\
    energyDeficit r == 92914 /\
    energySurplus r == 0 /\
    Banking.canBank b = false /\
    Banking.canBorrow b = true /\
    Banking.borrowingCapacity b == 2600.
Proof.
  eexists. eexists.
  split; [ reflexivity |].
  split; [ reflexivity |].
  vm_compute. repeat split; reflexivity.
Qed.

(** C5, counterexample: at 45000 MJ in 2025 the intensities
    89.25 and 89.26 give the same returned balance, 0.00. *)
Lemma returned_balance_not_strict :
  exists r1 r2,
    calculateVesselCompliance (mkVessel 45000 (8925 # 100) []) 2025 = Ok r1 /\
    calculateVesselCompliance (mkVessel 45000 (8926 # 100) []) 2025 = Ok r2 /\
    (8925 # 100) < (8926 # 100) /\
    ~ complianceBalance r2 < complianceBalance r1.
Proof.
  eexists. eexists.
  split; [ reflexivity |].
  split; [ reflexivity |].
  split; [ reflexivity |].
  vm_compute. discriminate.
Qed.

(** C5, amended.  For a fixed positive fuel consumption and a valid year,
    a higher intensity gives a strictly lower unrounded balance
    (deviation * fuelConsumption / 1000000); the returned balance is that
    value rounded to two decimals, less than 0.01 away from it, and does
    not increase; the score does not increase, and it decreases strictly
    between the target and twice the target. *)
Theorem balance_and_score_monotone
        (f g1 g2 : Q) (props : list (string * Value)) (year : Z) :
  0 < f -> validYear year = true -> g1 < g2 ->
  exists r1 r2,
    calculateVesselCompliance (mkVessel f g1 props) year = Ok r1 /\
    calculateVesselCompliance (mkVessel f g2 props) year = Ok r2 /\
    Calc.complianceBalance (targetIntensityOf year) (mkVessel f g2 props)
    < Calc.complianceBalance (targetIntensityOf year) (mkVessel f g1 props) /\
    Qabs (complianceBalance r1
          - Calc.complianceBalance (targetIntensityOf year)
                                   (mkVessel f g1 props)) < 1 # 100 /\
    Qabs (complianceBalance r2
          - Calc.complianceBalance (targetIntensityOf year)
                                   (mkVessel f g2 props)) < 1 # 100 /\
    complianceBalance r2 <= complianceBalance r1 /\
    complianceScore r2 <= complianceScore r1 /\
    (targetIntensityOf year <= g1 -> g2 <= 2 * targetIntensityOf year ->
     complianceScore r2 < complianceScore r1).
Proof.
  intros Hf Hy Hg.
  set (ti := targetIntensityOf year).
  set (v1 := mkVessel f g1 props). set (v2 := mkVessel f g2 props).
  pose proof (targetIntensity_pos year Hy) as Hti.
  exists (vesselResult v1 year (numberOf (prop complianceTargets year))).
  exists (vesselResult v2 year (numberOf (prop complianceTargets year))).
  split; [ now apply calculateVesselCompliance_ok |].
  split; [ now apply calculateVesselCompliance_ok |].
  pose proof (complianceBalance_strict ti f g1 g2 props props Hf Hg) as Hs.
  split; [ exact Hs |].
  split; [ apply toFixed_within_2 |].
  split; [ apply toFixed_within_2 |].
  split; [ apply toFixed_mono, Qlt_le_weak, Hs |].
  split.
  - apply (score_mono ti Hti g1 g2). lra.
  - intros H1 H2. now apply (score_strict ti Hti g1 g2).
Qed.

Lemma balance_and_score_monotone_witness :
  exists r1 r2,
    calculateVesselCompliance (mkVessel 28000 (9000 # 100) []) 2025 = Ok r1 /\
    calculateVesselCompliance (mkVessel 28000 (9512 # 100) []) 2025 = Ok r2 /\
    complianceBalance r2 <= complianceBalance r1 /\
    complianceScore r2 < complianceScore r1.
Proof.
  destruct (balance_and_score_monotone 28000 (9000 # 100) (9512 # 100) [] 2025)
    as (r1 & r2 & E1 & E2 & _ & _ & _ & Hb & _ & Hs);
    [ reflexivity | reflexivity | reflexivity |].
  exists r1, r2.
  split; [ exact E1 |].
  split; [ exact E2 |].
  split; [ exact Hb |].
  apply Hs; vm_compute; discriminate.
Defined.

(** ** The pool *)

#[global] Instance calculateComplianceScore_comp :
  Proper (Qeq ==> Qeq ==> Qeq) calculateComplianceScore.
Proof.
  intros a a' Ha t t' Ht. unfold calculateComplianceScore.
  rewrite (Qleb_comp a a' Ha t t' Ht).
  destruct (Qle_bool a' t').
  - unfold bonusScore. apply Q.min_compat; [ reflexivity |].
    now rewrite Ha, Ht.
  - unfold penaltyScore. apply Q.max_compat; [ reflexivity |].
    now rewrite Ha, Ht.
Qed.

Section Loop.

Variable year : Z.
Hypothesis year_valid : validYear year = true.

Let target : Q := numberOf (prop complianceTargets year).
Let ti : Q := Calc.targetIntensity target.

  (** In a valid year the loop runs to its end. *)
Lemma mapVessels_ok (vessels : list Vessel) (acc : Totals.t) :
    mapVessels vessels year acc
    = Ok (map (fun v => vesselResult v year target) vessels,
          fold_left (turn year) vessels acc).
  Proof.
    revert acc. induction vessels as [| v vs IH]; intro acc; simpl.
    - reflexivity.
    - rewrite (calculateVesselCompliance_ok v year year_valid). simpl.
      rewrite IH. reflexivity.
  Qed.

  (** A total that every turn increases by [g vessel] ends as the sum. *)
Lemma total_is_sum (p : Totals.t -> Q) (g : Vessel -> Q) :
    (forall acc v, p (turn year acc v) == p acc + g v) ->
    forall vessels acc,
      p (fold_left (turn year) vessels acc) == p acc + Qsum (map g vessels).
  Proof.
    intros Hstep vessels. induction vessels as [| v vs IH]; intro acc; simpl.
    - ring.
    - rewrite IH, Hstep. ring.
  Qed.

Lemma total_from_zero (p : Totals.t -> Q) (g : Vessel -> Q) :
    p Totals.zero == 0 ->
    (forall acc v, p (turn year acc v) == p acc + g v) ->
    forall vessels,
      p (fold_left (turn year) vessels Totals.zero) == Qsum (map g vessels).
  Proof.
    intros H0 Hstep vessels. rewrite (total_is_sum p g Hstep), H0. ring.
  Qed.

Lemma calculatePoolCompliance_ok (v : Vessel) (vs : list Vessel) :
    calculatePoolCompliance (v :: vs) year
    = Ok {| vessels := map (fun v => vesselResult v year target) (v :: vs);
            summary := poolSummary (lengthOf (v :: vs)) year target
                                   (fold_left (turn year) (v :: vs) Totals.zero) |}.
  Proof.
    unfold calculatePoolCompliance. rewrite mapVessels_ok. reflexivity.
  Qed.

End Loop.

Lemma Qsum_map_map {A B : Type} (f : A -> B) (g : B -> Q) (l : list A) :
  Qsum (map g (map f l)) = Qsum (map (fun a => g (f a)) l).
Proof. now rewrite map_map. Qed.

(** A sum that skips the elements failing a test is the sum over the
    elements that pass it. *)
Lemma Qsum_filter {A : Type} (c : A -> bool) (h : A -> Q) (l : list A) :
  Qsum (map (fun a => if c a then h a else 0) l)
  == Qsum (map h (filter c l)).
Proof.
  induction l as [| a l IH]; simpl; [ reflexivity |].
  destruct (c a); simpl; rewrite IH; ring.
Qed.

Lemma decimals_plus (d : nat) (x y : Q) :
  decimals d x -> decimals d y -> decimals d (x + y).
Proof.
  intros [n Hn] [m Hm]. exists (n + m)%Z.
  rewrite Hn, Hm, inject_Z_plus.
  pose proof (pow10_pos d). field. lra.
Qed.

Lemma decimals_opp (d : nat) (x : Q) : decimals d x -> decimals d (- x).
Proof.
  intros [n Hn]. exists (- n)%Z.
  rewrite Hn, inject_Z_opp.
  pose proof (pow10_pos d). field. lra.
Qed.

Lemma decimals_abs (d : nat) (x : Q) : decimals d x -> decimals d (Qabs x).
Proof.
  intro H. unfold decimals in *.
  destruct (Qlt_le_dec x 0) as [Hx | Hx].
  - destruct (decimals_opp d x H) as [n Hn]. exists n.
    rewrite Qabs_neg; [ exact Hn | lra ].
  - destruct H as [n Hn]. exists n. rewrite Qabs_pos; assumption.
Qed.

Lemma decimals_0 (d : nat) : decimals d 0.
Proof.
  exists 0%Z. pose proof (pow10_pos d). field. lra.
Qed.

Lemma decimals_toFixed (d : nat) (x : Q) : decimals d (toFixed d x).
Proof. eexists. reflexivity. Qed.

Lemma decimals_Qsum {A : Type} (d : nat) (g : A -> Q) (l : list A) :
  (forall a, decimals d (g a)) -> decimals d (Qsum (map g l)).
Proof.
  intro Hg. induction l as [| a l IH]; simpl.
  - apply decimals_0.
  - now apply decimals_plus.
Qed.

(** Rounding to [d] decimals leaves a number with [d] decimals alone. *)
Lemma toFixed_decimals (d : nat) (x : Q) : decimals d x -> toFixed d x == x.
Proof.
  intros [n Hn]. rewrite Hn. apply toFixed_multiple.
Qed.

(** The signed part, the deficit part and the surplus part of a list of
    balances. *)
Lemma signed_is_surplus_minus_deficit (l : list VesselResult) :
  Qsum (map complianceBalance l)
  == Qsum (map complianceBalance
               (filter (fun r => Qlt_bool 0 (complianceBalance r)) l))
     - Qsum (map (fun r => Qabs (complianceBalance r))
                 (filter (fun r => Qlt_bool (complianceBalance r) 0) l)).
Proof.
  induction l as [| r l IH]; simpl; [ reflexivity |].
  rewrite IH.
  by_cases_on (Qlt_bool 0 (complianceBalance r));
    by_cases_on (Qlt_bool (complianceBalance r) 0); simpl.
  - lra.
  - ring.
  - rewrite (Qabs_neg (complianceBalance r)); [ ring | lra ].
  - assert (Hz : complianceBalance r == 0) by lra. rewrite Hz. ring.
Qed.

(** What one turn adds to the deficit and to the surplus of the pool. *)
Lemma accumulate_deficit (vessel : Vessel) (r : VesselResult) (acc : Totals.t) :
  Totals.totalDeficitFromVessels (accumulate vessel r acc)
  == Totals.totalDeficitFromVessels acc
     + (if Qlt_bool (complianceBalance r) 0
        then Qabs (complianceBalance r) else 0).
Proof.
  unfold accumulate. cbn [Totals.totalDeficitFromVessels].
  destruct (Qlt_bool (complianceBalance r) 0); [ reflexivity | ring ].
Qed.

Lemma accumulate_surplus (vessel : Vessel) (r : VesselResult) (acc : Totals.t) :
  Totals.totalSurplusFromVessels (accumulate vessel r acc)
  == Totals.totalSurplusFromVessels acc
     + (if Qlt_bool 0 (complianceBalance r) then complianceBalance r else 0).
Proof.
  unfold accumulate. cbn [Totals.totalSurplusFromVessels].
  by_cases_on (Qlt_bool (complianceBalance r) 0);
    by_cases_on (Qlt_bool 0 (complianceBalance r)); lra.
Qed.

Section PoolTotals.

Variable year : Z.
Hypothesis year_valid : validYear year = true.

Let target : Q := numberOf (prop complianceTargets year).
Let ti : Q := Calc.targetIntensity target.
Let R (v : Vessel) : VesselResult := vesselResult v year target.
Let final (vessels : list Vessel) : Totals.t :=
    fold_left (turn year) vessels Totals.zero.

Lemma total_energyConsumption (vessels : list Vessel) :
    Totals.totalEnergyConsumption (final vessels)
    == Qsum (map fuelConsumption vessels).
  Proof.
    apply (total_from_zero year Totals.totalEnergyConsumption);
      intros; reflexivity.
  Qed.

Lemma total_emissions (vessels : list Vessel) :
    Totals.totalEmissions (final vessels)
    == Qsum (map (fun v => fuelConsumption v * ghgIntensity v) vessels).
  Proof.
    apply (total_from_zero year Totals.totalEmissions
             (fun v => fuelConsumption v * ghgIntensity v));
      intros; reflexivity.
  Qed.

Lemma total_energyDeficit (vessels : list Vessel) :
    Totals.totalEnergyDeficit (final vessels)
    == Qsum (map (fun v => toFixed 0 (Calc.energyDeficit ti v)) vessels).
  Proof.
    apply (total_from_zero year Totals.totalEnergyDeficit
             (fun v => toFixed 0 (Calc.energyDeficit ti v)));
      intros; reflexivity.
  Qed.

Lemma total_energySurplus (vessels : list Vessel) :
    Totals.totalEnergySurplus (final vessels)
    == Qsum (map (fun v => toFixed 0 (Calc.energySurplus ti v)) vessels).
  Proof.
    apply (total_from_zero year Totals.totalEnergySurplus
             (fun v => toFixed 0 (Calc.energySurplus ti v)));
      intros; reflexivity.
  Qed.

Lemma total_complianceBalance (vessels : list Vessel) :
    Totals.totalComplianceBalance (final vessels)
    == Qsum (map (fun v => toFixed 2 (Calc.complianceBalance ti v)) vessels).
  Proof.
    apply (total_from_zero year Totals.totalComplianceBalance
             (fun v => toFixed 2 (Calc.complianceBalance ti v)));
      intros; reflexivity.
  Qed.

Lemma total_potentialPenalty (vessels : list Vessel) :
    Totals.totalPotentialPenalty (final vessels)
    == Qsum (map (fun v => toFixed 2 (Calc.potentialPenalty
                                        (penaltyRateFor year) ti v)) vessels).
  Proof.
    apply (total_from_zero year Totals.totalPotentialPenalty
             (fun v => toFixed 2 (Calc.potentialPenalty
                                    (penaltyRateFor year) ti v)));
      intros; reflexivity.
  Qed.

Lemma total_deficit (vessels : list Vessel) :
    Totals.totalDeficitFromVessels (final vessels)
    == Qsum (map (fun v => if Qlt_bool (complianceBalance (R v)) 0
                           then Qabs (complianceBalance (R v)) else 0)
                 vessels).
  Proof.
    apply (total_from_zero year Totals.totalDeficitFromVessels
             (fun v => if Qlt_bool (complianceBalance (R v)) 0
                       then Qabs (complianceBalance (R v)) else 0)).
    - reflexivity.
    - intros acc v. apply accumulate_deficit.
  Qed.

Lemma total_surplus (vessels : list Vessel) :
    Totals.totalSurplusFromVessels (final vessels)
    == Qsum (map (fun v => if Qlt_bool 0 (complianceBalance (R v))
                           then complianceBalance (R v) else 0)
                 vessels).
  Proof.
    apply (total_from_zero year Totals.totalSurplusFromVessels
             (fun v => if Qlt_bool 0 (complianceBalance (R v))
                       then complianceBalance (R v) else 0)).
    - reflexivity.
    - intros acc v. apply accumulate_surplus.
  Qed.

  (** The three balance totals have two decimals. *)
Lemma total_complianceBalance_decimals (vessels : list Vessel) :
    decimals 2 (Totals.totalComplianceBalance (final vessels)).
  Proof.
    destruct (decimals_Qsum 2 (fun v => toFixed 2 (Calc.complianceBalance ti v))
                            vessels) as [n Hn].
    - intro v. apply decimals_toFixed.
    - exists n. now rewrite total_complianceBalance.
  Qed.

Lemma total_deficit_decimals (vessels : list Vessel) :
    decimals 2 (Totals.totalDeficitFromVessels (final vessels)).
  Proof.
    destruct (decimals_Qsum 2
                (fun v => if Qlt_bool (complianceBalance (R v)) 0
                          then Qabs (complianceBalance (R v)) else 0)
                vessels) as [n Hn].
    - intro v. destruct (Qlt_bool _ 0).
      + apply decimals_abs, decimals_toFixed.
      + apply decimals_0.
    - exists n. now rewrite total_deficit.
  Qed.

Lemma total_surplus_decimals (vessels : list Vessel) :
    decimals 2 (Totals.totalSurplusFromVessels (final vessels)).
  Proof.
    destruct (decimals_Qsum 2
                (fun v => if Qlt_bool 0 (complianceBalance (R v))
                          then complianceBalance (R v) else 0)
                vessels) as [n Hn].
    - intro v. destruct (Qlt_bool 0 _).
      + apply decimals_toFixed.
      + apply decimals_0.
    - exists n. now rewrite total_surplus.
  Qed.

  (** The totals in terms of the results the call returns. *)
Lemma total_complianceBalance_results (vessels : list Vessel) :
    Totals.totalComplianceBalance (final vessels)
    == Qsum (map complianceBalance (map R vessels)).
  Proof.
    rewrite total_complianceBalance, Qsum_map_map. reflexivity.
  Qed.

Lemma total_deficit_results (vessels : list Vessel) :
    Totals.totalDeficitFromVessels (final vessels)
    == Qsum (map (fun r => Qabs (complianceBalance r))
                 (filter (fun r => Qlt_bool (complianceBalance r) 0)
                         (map R vessels))).
  Proof.
    rewrite total_deficit, <- Qsum_filter, Qsum_map_map. reflexivity.
  Qed.

Lemma total_surplus_results (vessels : list Vessel) :
    Totals.totalSurplusFromVessels (final vessels)
    == Qsum (map complianceBalance
                 (filter (fun r => Qlt_bool 0 (complianceBalance r))
                         (map R vessels))).
  Proof.
    rewrite total_surplus, <- Qsum_filter, Qsum_map_map. reflexivity.
  Qed.

End PoolTotals.

Lemma calculatePoolCompliance_returns (vessels : list Vessel) (year : Z) :
  validYear year = true ->
  exists p, calculatePoolCompliance vessels year = Ok p.
Proof.
  intro Hy. destruct vessels as [| v vs].
  - eexists. reflexivity.
  - eexists. apply (calculatePoolCompliance_ok year Hy).
Qed.

(** C2, counterexample: for two vessels with an unrounded
    balance of -0.002844 each, the pool balance is the sum of the two
    returned balances, 0.00 + 0.00, not the rounding -0.01 of the
    unrounded sum -0.005688; the pool counts as compliant although the
    unrounded net balance is negative. *)
Lemma pool_balance_uses_rounded_results :
  exists p,
    calculatePoolCompliance [slightlyOver; slightlyOver] 2025 = Ok p /\
    Summary.poolComplianceBalance (summary p) == 0 /\
    toFixed 2 (unroundedBalance 2025 [slightlyOver; slightlyOver])
    == - (1 # 100) /\
    ~ Summary.poolComplianceBalance (summary p)
      == toFixed 2 (unroundedBalance 2025 [slightlyOver; slightlyOver]) /\
    unroundedBalance 2025 [slightlyOver; slightlyOver] < 0 /\
    Summary.poolCompliant (summary p) = true.
Proof.
  eexists. split; [ reflexivity |].
  vm_compute. repeat split; try reflexivity; discriminate.
Qed.

(** The results of the pool are those of the calls, vessel by vessel. *)
Lemma results_of_calls (fleet : list Vessel) (year : Z) :
  validYear year = true ->
  Forall2 (fun v r => calculateVesselCompliance v year = Ok r)
          fleet
          (map (fun v => vesselResult v year
                           (numberOf (prop complianceTargets year))) fleet).
Proof.
  intro Hy. induction fleet as [| v vs IH]; cbn [map]; constructor.
  - apply (calculateVesselCompliance_ok v year Hy).
  - exact IH.
Qed.

(** C2, amended.  For a pool that is not empty and a valid year, with the
    results the calls of [calculateVesselCompliance] return for its
    vessels: the pool balance and the total penalty are the sums of the
    returned balances and penalties, which are already rounded to two
    decimals, and the two pool energies are the sums of the returned
    energies, already rounded to whole MJ, divided by 1000000 and
    rounded again; only the energy consumption and the emissions are
    roundings of sums over the unrounded inputs.  The pool is compliant
    when the sum of the returned balances is positive and not compliant
    when it is negative. *)
Theorem pool_totals_sum_returned_values (fleet : list Vessel) (year : Z) :
  fleet <> [] -> validYear year = true ->
  exists p,
    calculatePoolCompliance fleet year = Ok p /\
    Forall2 (fun v r => calculateVesselCompliance v year = Ok r)
            fleet (vessels p) /\
    Summary.poolComplianceBalance (summary p)
    == Qsum (map complianceBalance (vessels p)) /\
    Summary.totalPotentialPenalty (summary p)
    == Qsum (map potentialPenalty (vessels p)) /\
    Qabs (Summary.poolEnergyDeficit (summary p)
          - Qsum (map energyDeficit (vessels p)) / 1000000) < 1 # 100 /\
    Qabs (Summary.poolEnergySurplus (summary p)
          - Qsum (map energySurplus (vessels p)) / 1000000) < 1 # 100 /\
    Qabs (Summary.totalEnergyConsumption (summary p)
          - Qsum (map fuelConsumption fleet)) < 1 /\
    Qabs (Summary.totalEmissions (summary p)
          - Qsum (map (fun v => fuelConsumption v * ghgIntensity v) fleet))
    < 1 /\
    (0 < Qsum (map complianceBalance (vessels p)) ->
     Summary.poolCompliant (summary p) = true) /\
    (Qsum (map complianceBalance (vessels p)) < 0 ->
     Summary.poolCompliant (summary p) = false).
Proof.
  intros Hne Hy.
  destruct fleet as [| v vs]; [ congruence |].
  set (l := v :: vs).
  eexists. split; [ apply (calculatePoolCompliance_ok year Hy) |].
  fold l.
  cbn [summary vessels poolSummary Summary.poolComplianceBalance
       Summary.totalPotentialPenalty Summary.poolEnergyDeficit
       Summary.poolEnergySurplus Summary.totalEnergyConsumption
       Summary.totalEmissions Summary.poolCompliant].
  set (R := fun v0 => vesselResult v0 year
                        (numberOf (prop complianceTargets year))).
  set (acc := fold_left (turn year) l Totals.zero).
  assert (Eb : Totals.totalComplianceBalance acc
               == Qsum (map complianceBalance (map R l))).
  { apply (total_complianceBalance_results year l). }
  assert (Ep : Totals.totalPotentialPenalty acc
               == Qsum (map potentialPenalty (map R l))).
  { unfold acc. rewrite (total_potentialPenalty year l), Qsum_map_map.
    reflexivity. }
  assert (Ed : Totals.totalEnergyDeficit acc
               == Qsum (map energyDeficit (map R l))).
  { unfold acc. rewrite (total_energyDeficit year l), Qsum_map_map.
    reflexivity. }
  assert (Es : Totals.totalEnergySurplus acc
               == Qsum (map energySurplus (map R l))).
  { unfold acc. rewrite (total_energySurplus year l), Qsum_map_map.
    reflexivity. }
  split; [ apply (results_of_calls l year Hy) |].
  split.
  { apply Qeq_trans with (2 := Eb).
    apply toFixed_decimals, (total_complianceBalance_decimals year l). }
  split.
  { apply Qeq_trans with (2 := Ep). apply toFixed_decimals.
    destruct (decimals_Qsum 2
                (fun v0 => toFixed 2 (Calc.potentialPenalty
                                        (penaltyRateFor year)
                                        (targetIntensityOf year) v0)) l)
      as [n Hn]; [ intro v0; apply decimals_toFixed |].
    exists n. rewrite <- Hn. unfold acc.
    apply (total_potentialPenalty year l). }
  split; [ rewrite <- Ed; apply toFixed_within_2 |].
  split; [ rewrite <- Es; apply toFixed_within_2 |].
  split.
  { rewrite <- (total_energyConsumption year l). apply toFixed_within_0. }
  split.
  { rewrite <- (total_emissions year l). apply toFixed_within_0. }
  unfold Pool.poolCompliant. rewrite <- Eb.
  split; intro H.
  - apply Qle_bool_iff. lra.
  - apply Qle_bool_false_iff. exact H.
Qed.

Lemma pool_totals_sum_returned_values_witness :
  exists p,
    calculatePoolCompliance [slightlyOver; slightlyOver] 2025 = Ok p /\
    Summary.poolComplianceBalance (summary p)
    == Qsum (map complianceBalance (vessels p)) /\
    Summary.poolComplianceBalance (summary p) == 0.
Proof.
  destruct (pool_totals_sum_returned_values [slightlyOver; slightlyOver] 2025)
    as (p & Ep & _ & Eb & _); [ discriminate | reflexivity |].
  exists p. split; [ exact Ep |]. split; [ exact Eb |].
  unfold slightlyOver in Ep.
  rewrite (calculatePoolCompliance_ok 2025 eq_refl) in Ep.
  injection Ep as <-. vm_compute. reflexivity.
Defined.

(** C6.  For a pool that is not empty and a valid year, with the results
    the calls of [calculateVesselCompliance] return for its vessels, the
    summary satisfies poolComplianceBalance = poolComplianceSurplus -
    poolComplianceDeficit, where the deficit is the sum of the absolute
    balances of the results with a negative balance, the surplus the sum
    of the balances of the results with a positive balance, and the
    balance the signed sum; the three are kept in separate variables by
    the loop. *)
Theorem pool_signed_identity (fleet : list Vessel) (year : Z) :
  fleet <> [] -> validYear year = true ->
  exists p,
    calculatePoolCompliance fleet year = Ok p /\
    Forall2 (fun v r => calculateVesselCompliance v year = Ok r)
            fleet (vessels p) /\
    Summary.poolComplianceBalance (summary p)
    == Summary.poolComplianceSurplus (summary p)
       - Summary.poolComplianceDeficit (summary p) /\
    Summary.poolComplianceDeficit (summary p)
    == Qsum (map (fun r => Qabs (complianceBalance r))
                 (filter (fun r => Qlt_bool (complianceBalance r) 0)
                         (vessels p))) /\
    Summary.poolComplianceSurplus (summary p)
    == Qsum (map complianceBalance
                 (filter (fun r => Qlt_bool 0 (complianceBalance r))
                         (vessels p))) /\
    Summary.poolComplianceBalance (summary p)
    == Qsum (map complianceBalance (vessels p)).
Proof.
  intros Hne Hy.
  destruct fleet as [| v vs]; [ congruence |].
  set (l := v :: vs).
  eexists. split; [ apply (calculatePoolCompliance_ok year Hy) |].
  fold l. cbn [summary vessels poolSummary Summary.poolComplianceBalance
               Summary.poolComplianceSurplus Summary.poolComplianceDeficit].
  split; [ apply (results_of_calls l year Hy) |].
  rewrite (toFixed_decimals 2 _ (total_complianceBalance_decimals year l)).
  rewrite (toFixed_decimals 2 _ (total_deficit_decimals year l)).
  rewrite (toFixed_decimals 2 _ (total_surplus_decimals year l)).
  rewrite (total_complianceBalance_results year l).
  rewrite (total_deficit_results year l).
  rewrite (total_surplus_results year l).
  split; [ apply signed_is_surplus_minus_deficit |].
  repeat split; reflexivity.
Qed.
Lemma pool_signed_identity_witness :
  exists p,
    calculatePoolCompliance [medPrincess; pacificTrader; balticVoyager] 2025
    = Ok p /\
    Forall2 (fun v r => calculateVesselCompliance v 2025 = Ok r)
            [medPrincess; pacificTrader; balticVoyager] (vessels p) /\
    Summary.poolComplianceBalance (summary p) == - (14 # 100) /\
    Summary.poolComplianceSurplus (summary p) == 9 # 100 /\
    Summary.poolComplianceDeficit (summary p) == 23 # 100.
Proof.
  destruct (pool_signed_identity [medPrincess; pacificTrader; balticVoyager]
                                 2025)
    as (p & Ep & Hres & Hid & Hd & Hs & _);
    [ discriminate | reflexivity |].
  exists p. split; [ exact Ep |]. split; [ exact Hres |].
  assert (Ev : vessels p
               = map (fun v => vesselResult v 2025 (2 # 100))
                     [medPrincess; pacificTrader; balticVoyager]).
  { rewrite (calculatePoolCompliance_ok 2025 eq_refl) in Ep.
    injection Ep as <-. reflexivity. }
  rewrite Ev in Hd, Hs.
  assert (Es : Summary.poolComplianceSurplus (summary p) == 9 # 100).
  { rewrite Hs. vm_compute. reflexivity. }
  assert (Ed : Summary.poolComplianceDeficit (summary p) == 23 # 100).
  { rewrite Hd. vm_compute. reflexivity. }
  split; [ rewrite Hid, Es, Ed; reflexivity |].
  split; assumption.
Defined.

(** The average the loop ends with is the fuel-weighted mean. *)
Lemma poolAverageIntensity_weighted (fleet : list Vessel) (year : Z) :
  validYear year = true ->
  Pool.poolAverageIntensity (fold_left (turn year) fleet Totals.zero)
  == weightedMean fleet.
Proof.
  intro Hy. unfold Pool.poolAverageIntensity, weightedMean.
  rewrite (total_emissions year fleet), (total_energyConsumption year fleet).
  reflexivity.
Qed.



(** ** The penalty rate *)

(** C8.  A year that has a target and no penalty rate is 2031 or 2032;
    the rate used for it is the one of 2030, 640; the penalty of a
    vessel with a negative balance is |balance| * rate(2030) / 1000000,
    returned rounded to two decimals, less than 0.01 away from it; and
    the penalty of a pool whose returned balances have a negative sum is
    computed with the same rate from that sum. *)
Theorem penalty_rate_falls_back (year : Z) :
  validYear year = true -> prop penaltyRates year = None ->
  (year = 2031 \/ year = 2032)%Z /\
  penaltyRateFor year = numberOf (prop penaltyRates 2030%Z) /\
  numberOf (prop penaltyRates 2030%Z) == 640 /\
  (forall vessel,
     exists r,
       calculateVesselCompliance vessel year = Ok r /\
       (Calc.complianceBalance (targetIntensityOf year) vessel < 0 ->
        Calc.potentialPenalty (penaltyRateFor year) (targetIntensityOf year)
                              vessel
        == Qabs (Calc.complianceBalance (targetIntensityOf year) vessel)
           * numberOf (prop penaltyRates 2030%Z) / 1000000 /\
        Qabs (potentialPenalty r
              - Qabs (Calc.complianceBalance (targetIntensityOf year) vessel)
                * numberOf (prop penaltyRates 2030%Z) / 1000000)
        < 1 # 100)) /\
  (forall fleet,
     fleet <> [] ->
     exists p,
       calculatePoolCompliance fleet year = Ok p /\
       Forall2 (fun v r => calculateVesselCompliance v year = Ok r)
               fleet (vessels p) /\
       (Qsum (map complianceBalance (vessels p)) < 0 ->
        Qabs (Summary.poolPotentialPenalty (summary p)
              - Qabs (Qsum (map complianceBalance (vessels p)))
                * numberOf (prop penaltyRates 2030%Z) / 1000000)
        < 1 # 100)).
Proof.
  intros Hy Hp.
  set (rate2030 := numberOf (prop penaltyRates 2030%Z)).
  set (ti := targetIntensityOf year).
  assert (Hrate : penaltyRateFor year = rate2030).
  { unfold penaltyRateFor. rewrite Hp. reflexivity. }
  split.
  { unfold validYear, complianceTargets in Hy. unfold penaltyRates in Hp.
    simpl in Hy, Hp.
    repeat match type of Hp with
           | context [ (year =? ?k)%Z ] =>
               destruct (Z.eqb_spec year k); [ try discriminate Hp; auto |]
           end.
    repeat match type of Hy with
           | context [ (year =? ?k)%Z ] =>
               destruct (Z.eqb_spec year k); [ auto |]
           end.
    discriminate Hy. }
  split; [ exact Hrate |].
  split; [ reflexivity |].
  split.
  - intro vessel. eexists.
    split; [ apply (calculateVesselCompliance_ok vessel year Hy) |].
    intro Hneg.
    assert (E : Calc.potentialPenalty (penaltyRateFor year) ti vessel
                == Qabs (Calc.complianceBalance ti vessel) * rate2030 / 1000000).
    { unfold Calc.potentialPenalty. apply Qlt_bool_iff in Hneg.
      rewrite Hneg, Hrate. reflexivity. }
    split; [ exact E |].
    cbn [potentialPenalty vesselResult].
    change (Calc.targetIntensity (numberOf (prop complianceTargets year)))
      with ti.
    rewrite <- E. apply toFixed_within_2.
  - intros fleet Hne.
    destruct fleet as [| v vs]; [ congruence |].
    set (l := v :: vs) in *.
    eexists.
    split; [ apply (calculatePoolCompliance_ok year Hy) |].
    fold l. cbn [summary vessels poolSummary Summary.poolPotentialPenalty].
    split; [ apply (results_of_calls l year Hy) |].
    rewrite <- (total_complianceBalance_results year l).
    intro Hneg. apply Qlt_bool_iff in Hneg. rewrite Hneg, Hrate.
    apply toFixed_within_2.
Qed.

(** In 2031 a vessel with a balance of -47148 tCO2eq is charged at the
    rate of 2030: 47148 * 640 / 1000000 = 30.17472, returned as 30.17;
    with a second vessel of balance -0.26 the pool is charged
    47148.26 * 640 / 1000000 = 30.1748864, returned as 30.17. *)
Lemma penalty_rate_falls_back_witness :
  penaltyRateFor 2031 == 640 /\
  (exists r,
     calculateVesselCompliance heavyEmitter 2031 = Ok r /\
     complianceBalance r == - 47148 /\
     Qabs (potentialPenalty r - (3017472 # 100000)) < 1 # 100 /\
     potentialPenalty r == 3017 # 100) /\
  (exists p,
     calculatePoolCompliance [heavyEmitter; medPrincess] 2031 = Ok p /\
     Summary.poolComplianceBalance (summary p) == - (4714826 # 100) /\
     Summary.poolPotentialPenalty (summary p) == 3017 # 100).
Proof.
  destruct (penalty_rate_falls_back 2031 eq_refl eq_refl)
    as (_ & Hr & H640 & Hv & Hpool).
  split; [ rewrite Hr; exact H640 |].
  split.
  - destruct (Hv heavyEmitter) as (r & Er & Hpen).
    exists r. split; [ exact Er |].
    destruct Hpen as [_ Hpen]; [ reflexivity |].
    assert (E : Qabs (Calc.complianceBalance (targetIntensityOf 2031)
                                             heavyEmitter)
                * numberOf (prop penaltyRates 2030%Z) / 1000000
                == 3017472 # 100000) by (vm_compute; reflexivity).
    rewrite E in Hpen.
    rewrite (calculateVesselCompliance_ok heavyEmitter 2031 eq_refl) in Er.
    injection Er as <-.
    split; [ vm_compute; reflexivity |].
    split; [ exact Hpen | vm_compute; reflexivity ].
  - destruct (Hpool [heavyEmitter; medPrincess]) as (p & Ep & _);
      [ discriminate |].
    exists p. split; [ exact Ep |].
    rewrite (calculatePoolCompliance_ok 2031 eq_refl) in Ep.
    injection Ep as <-. split; vm_compute; reflexivity.
Defined.

(** ** The empty pool *)

(** C10, counterexample to the last part of the claim: a pool of one
    vessel slightly above the target counts as compliant, because the
    balance it adds is the rounded 0.00, and scores 99.9. *)
Lemma compliant_pool_below_100 :
  exists p,
    calculatePoolCompliance [slightlyOver] 2025 = Ok p /\
    Summary.poolCompliant (summary p) = true /\
    Summary.poolComplianceScore (summary p) == 999 # 10 /\
    ~ Summary.poolComplianceScore (summary p) == 100.
Proof.
  eexists. split; [ reflexivity |].
  vm_compute. repeat split; try reflexivity; discriminate.
Qed.

(** C10, amended.  For a valid year the empty pool has
    [poolCompliant = true] and [poolComplianceScore = 0]; the zero is
    written in [getEmptyPoolResult] and is not the value of
    [calculateComplianceScore] at the intensities of that summary, which
    is 100; and a pool that is not empty, has fuel, and whose
    fuel-weighted average intensity is at most the target scores 100. *)
Theorem empty_pool_scores_zero (year : Z) :
  validYear year = true ->
  (exists p,
     calculatePoolCompliance [] year = Ok p /\
     p = getEmptyPoolResult year /\
     Summary.poolCompliant (summary p) = true /\
     Summary.poolComplianceScore (summary p) = 0 /\
     Summary.poolTargetIntensity (summary p)
     = Pool.poolTargetIntensity (targetOf year) /\
     calculateComplianceScore (Summary.poolAverageIntensity (summary p))
                              (Summary.poolTargetIntensity (summary p))
     == 100) /\
  (forall fleet,
     fleet <> [] ->
     ~ Qsum (map fuelConsumption fleet) == 0 ->
     weightedMean fleet <= Pool.poolTargetIntensity (targetOf year) ->
     exists p,
       calculatePoolCompliance fleet year = Ok p /\
       Summary.poolComplianceScore (summary p) == 100).
Proof.
  intros Hy.
  pose proof (targetIntensity_pos year Hy) as Hti.
  split.
  - exists (getEmptyPoolResult year).
    assert (Et : Summary.poolTargetIntensity (summary (getEmptyPoolResult year))
                 = Pool.poolTargetIntensity (targetOf year)).
    { cbn [getEmptyPoolResult summary Summary.poolTargetIntensity].
      unfold orElse. rewrite (validYear_falsy year Hy). reflexivity. }
    repeat split; try reflexivity; try exact Et.
    rewrite Et. apply score_compliant; [ exact Hti |].
    cbn [getEmptyPoolResult summary Summary.poolAverageIntensity].
    apply Qlt_le_weak, Hti.
  - intros fleet Hne _ Havg.
    destruct fleet as [| v vs]; [ congruence |].
    set (l := v :: vs) in *.
    eexists. split; [ apply (calculatePoolCompliance_ok year Hy) |].
    fold l. cbn [summary poolSummary Summary.poolComplianceScore].
    unfold Pool.poolComplianceScore.
    rewrite (poolAverageIntensity_weighted l year Hy).
    pose proof (score_compliant (Pool.poolTargetIntensity (targetOf year))
                                Hti _ Havg) as E100.
    unfold targetOf in E100. rewrite E100. exact (toFixed_Z 1 100).
Qed.

(** The empty pool of 2030, and the pool of the one clean vessel. *)
Lemma empty_pool_scores_zero_witness :
  (exists p,
     calculatePoolCompliance [] 2030 = Ok p /\
     Summary.poolCompliant (summary p) = true /\
     Summary.poolComplianceScore (summary p) = 0) /\
  (exists p,
     calculatePoolCompliance [smallClean] 2030 = Ok p /\
     Summary.poolComplianceScore (summary p) == 100).
Proof.
  destruct (empty_pool_scores_zero 2030 eq_refl)
    as [(p & Ep & _ & Hc & Hs & _) Hfull].
  split.
  - exists p. repeat split; assumption.
  - apply (Hfull [smallClean]).
    + discriminate.
    + vm_compute. discriminate.
    + vm_compute. discriminate.
Defined.

(** ** Years without a target *)






(** ** Objects: inputs are not written, metadata is forwarded *)

Lemma unchanged_refl (h : Heap) : unchanged h h.
Proof. intros r o H. exact H. Qed.

Lemma unchanged_trans (h1 h2 h3 : Heap) :
  unchanged h1 h2 -> unchanged h2 h3 -> unchanged h1 h3.
Proof. intros H12 H23 r o H. apply H23, H12, H. Qed.

Lemma alloc_unchanged (h : Heap) (o : Vessel) : unchanged h (fst (alloc h o)).
Proof.
  intros r o' H. unfold alloc, deref in *. simpl.
  rewrite nth_error_app1; [ exact H |].
  apply nth_error_Some. congruence.
Qed.

Lemma alloc_deref (h : Heap) (o : Vessel) :
  deref (fst (alloc h o)) (snd (alloc h o)) = Some o.
Proof.
  unfold alloc, deref. simpl.
  rewrite nth_error_app2, Nat.sub_diag; [ reflexivity | lia ].
Qed.

Lemma assoc_setProp_other (key k : string) (v : Value)
      (props : list (string * Value)) :
  key <> k -> assoc key (setProp k v props) = assoc key props.
Proof.
  intro Hne. induction props as [| [k' v'] props IH]; simpl.
  - apply String.eqb_neq in Hne. now rewrite Hne.
  - destruct (String.eqb_spec k k') as [-> | Hk]; simpl.
    + apply String.eqb_neq in Hne. now rewrite Hne.
    + destruct (String.eqb key k'); [ reflexivity | exact IH ].
Qed.

Lemma assoc_setProps_other (key : string) (kvs props : list (string * Value)) :
  ~ In key (map fst kvs) ->
  assoc key (fold_left (fun props kv => setProp (fst kv) (snd kv) props)
                       kvs props)
  = assoc key props.
Proof.
  revert props. induction kvs as [| [k v] kvs IH]; intros props Hnot; simpl.
  - reflexivity.
  - rewrite IH.
    + apply assoc_setProp_other. intro E. apply Hnot. left. now rewrite E.
    + intro Hin. apply Hnot. right. exact Hin.
Qed.

(** The object literal forwards the vessel. *)
Lemma toObject_forwards (r : VesselResult) : forwards (spread r) (toObject r).
Proof.
  intros key Hnot. unfold getProp, toObject.
  cbn [fuelConsumption ghgIntensity otherProps].
  destruct (String.eqb key "fuelConsumption"); [ reflexivity |].
  destruct (String.eqb key "ghgIntensity"); [ reflexivity |].
  apply assoc_setProps_other. exact Hnot.
Qed.

Lemma vesselResult_spread (v : Vessel) (year : Z) (r : VesselResult) :
  calculateVesselCompliance v year = Ok r -> spread r = v.
Proof.
  unfold calculateVesselCompliance.
  destruct (falsy _); [ discriminate |].
  intro E. injection E as <-. reflexivity.
Qed.

(** A call allocates the result and touches nothing else. *)
Lemma callAt_returns (h h' : Heap) (vessel ref : Ref) (year : Z)
      (r : VesselResult) :
  callAt h vessel year = (h', Ok (ref, r)) ->
  exists v,
    deref h vessel = Some v /\
    calculateVesselCompliance v year = Ok r /\
    h' = h ++ [toObject r] /\
    ref = List.length h.
Proof.
  unfold callAt.
  destruct (falsy (prop complianceTargets year)); [ discriminate |].
  destruct (deref h vessel) as [v |]; [| discriminate ].
  destruct (calculateVesselCompliance v year) as [r0 | e] eqn:Er;
    [| discriminate ].
  cbn [alloc]. intro E. injection E as <- <- <-.
  exists v. repeat split. exact Er.
Qed.

Lemma callAt_unchanged (h : Heap) (vessel : Ref) (year : Z) :
  unchanged h (fst (callAt h vessel year)).
Proof.
  unfold callAt.
  destruct (falsy (prop complianceTargets year)); [ apply unchanged_refl |].
  destruct (deref h vessel) as [v |]; [| apply unchanged_refl ].
  destruct (calculateVesselCompliance v year) as [r | e];
    [| apply unchanged_refl ].
  apply (alloc_unchanged h (toObject r)).
Qed.

Lemma callAt_forwards (h h' : Heap) (vessel ref : Ref) (year : Z)
      (r : VesselResult) :
  callAt h vessel year = (h', Ok (ref, r)) ->
  forwardedAt h h' vessel ref.
Proof.
  intro E. destruct (callAt_returns h h' vessel ref year r E)
    as (v & Hv & Er & -> & ->).
  exists v, (toObject r).
  split; [ exact Hv |].
  split; [ apply (alloc_deref h (toObject r)) |].
  rewrite <- (vesselResult_spread v year r Er). apply toObject_forwards.
Qed.

Lemma calculateVesselComplianceAt_unchanged (h : Heap) (vessel : Ref) (year : Z) :
  unchanged h (fst (calculateVesselComplianceAt h vessel year)).
Proof.
  unfold calculateVesselComplianceAt.
  pose proof (callAt_unchanged h vessel year) as H.
  destruct (callAt h vessel year) as [h' [out | e]]; exact H.
Qed.

Lemma calculateVesselComplianceAt_forwards
      (h : Heap) (vessel : Ref) (year : Z) (ref : Ref) :
  snd (calculateVesselComplianceAt h vessel year) = Ok ref ->
  forwardedAt h (fst (calculateVesselComplianceAt h vessel year)) vessel ref.
Proof.
  unfold calculateVesselComplianceAt.
  destruct (callAt h vessel year) as [h' [[ref' r] | e]] eqn:Ecall;
    cbn [fst snd]; [| discriminate ].
  intro E. injection E as <-. exact (callAt_forwards h h' vessel ref' year r Ecall).
Qed.

(** The loop: the heap grows by one result per vessel and nothing else
    changes; each result forwards its vessel. *)
Lemma mapVesselsAt_unchanged (refs : list Ref) (year : Z) :
  forall (h : Heap) (acc : Totals.t),
    unchanged h (fst (mapVesselsAt h refs year acc)).
Proof.
  induction refs as [| ref refs IH]; intros h acc; cbn [mapVesselsAt].
  - apply unchanged_refl.
  - pose proof (callAt_unchanged h ref year) as H1.
    destruct (callAt h ref year) as [h1 [[ref' r] | e]]; cbn [fst] in H1;
      [| exact H1 ].
    destruct (deref h1 ref) as [v |]; [| exact H1 ].
    specialize (IH h1 (accumulate v r acc)).
    destruct (mapVesselsAt h1 refs year (accumulate v r acc))
      as [h2 [out | e]]; cbn [fst] in *;
      apply (unchanged_trans _ _ _ H1 IH).
Qed.

Lemma Forall2_restrict {A B : Type} (P : A -> Prop) (R R' : A -> B -> Prop)
      (l : list A) (l' : list B) :
  (forall a b, P a -> R a b -> R' a b) ->
  Forall P l -> Forall2 R l l' -> Forall2 R' l l'.
Proof.
  intros H HP HR. induction HR as [| a b l l' Hab HR IH].
  - constructor.
  - inversion HP; subst. constructor; auto.
Qed.

Lemma deref_valid (h : Heap) (r : Ref) :
  (r < List.length h)%nat -> exists o, deref h r = Some o.
Proof.
  intro H. unfold deref.
  destruct (nth_error h r) as [o |] eqn:E; [ now exists o |].
  apply nth_error_None in E. lia.
Qed.

Lemma mapVesselsAt_forwards (refs : list Ref) (year : Z) :
  forall (h : Heap) (acc : Totals.t) (out : list Ref * Totals.t),
    Forall (fun ref => (ref < List.length h)%nat) refs ->
    snd (mapVesselsAt h refs year acc) = Ok out ->
    Forall2 (forwardedAt h (fst (mapVesselsAt h refs year acc)))
            refs (fst out).
Proof.
  induction refs as [| ref refs IH]; intros h acc out Hvalid;
    cbn [mapVesselsAt].
  - cbn [snd]. intro E. injection E as <-. constructor.
  - inversion Hvalid as [| ? ? Href Hrefs]; subst.
    pose proof (callAt_unchanged h ref year) as H1.
    destruct (callAt h ref year) as [h1 [[ref' r] | e]] eqn:Ecall;
      cbn [fst] in H1; [| discriminate ].
    pose proof (callAt_forwards h h1 ref ref' year r Ecall) as Hfw.
    destruct (callAt_returns h h1 ref ref' year r Ecall)
      as (_ & _ & _ & Eh1 & _).
    destruct (deref h1 ref) as [v |]; [| discriminate ].
    specialize (IH h1 (accumulate v r acc)).
    pose proof (mapVesselsAt_unchanged refs year h1 (accumulate v r acc)) as H2.
    destruct (mapVesselsAt h1 refs year (accumulate v r acc))
      as [h2 [out' | e]]; cbn [fst snd] in *; [| discriminate ].
    intro E. injection E as <-. cbn [fst].
    constructor.
    + destruct Hfw as (w & o & Hw & Ho & Hf).
      exists w, o. split; [ exact Hw |]. split; [ apply H2, Ho | exact Hf ].
    + assert (Hvalid' : Forall (fun ref => (ref < List.length h1)%nat) refs).
      { apply Forall_impl with (2 := Hrefs). intros a Ha.
        rewrite Eh1, length_app. simpl. lia. }
      specialize (IH out' Hvalid' eq_refl).
      apply Forall2_restrict with (2 := Hrefs) (3 := IH).
      intros a b Ha (w & o & Hw & Ho & Hf).
      destruct (deref_valid h a Ha) as [w' Hw'].
      pose proof (H1 a w' Hw') as Hw''.
      assert (w' = w) by congruence. subst w'.
      exists w, o. split; [ exact Hw' |]. split; assumption.
Qed.

Lemma calculatePoolComplianceAt_unchanged (h : Heap) (refs : list Ref) (year : Z) :
  unchanged h (fst (calculatePoolComplianceAt h refs year)).
Proof.
  unfold calculatePoolComplianceAt.
  destruct refs as [| ref refs]; [ apply unchanged_refl |].
  pose proof (mapVesselsAt_unchanged (ref :: refs) year h Totals.zero) as H.
  destruct (mapVesselsAt h (ref :: refs) year Totals.zero) as [h' [out | e]];
    exact H.
Qed.

Lemma calculatePoolComplianceAt_forwards
      (h : Heap) (refs : list Ref) (year : Z)
      (results : list Ref) (s : Summary.t) :
  Forall (fun ref => (ref < List.length h)%nat) refs ->
  snd (calculatePoolComplianceAt h refs year) = Ok (results, s) ->
  Forall2 (forwardedAt h (fst (calculatePoolComplianceAt h refs year)))
          refs results.
Proof.
  intro Hvalid. unfold calculatePoolComplianceAt.
  destruct refs as [| ref refs].
  - cbn [snd]. intro E. injection E as <- _. constructor.
  - pose proof (mapVesselsAt_forwards (ref :: refs) year h Totals.zero) as H.
    destruct (mapVesselsAt h (ref :: refs) year Totals.zero) as [h' [out | e]];
      cbn [fst snd] in *; [| discriminate ].
    intro E. injection E as <- _. apply (H out Hvalid eq_refl).
Qed.

(** The loop on references computes what the loop on values computes. *)
Lemma mapVesselsAt_values (refs : list Ref) (year : Z) :
  forall (h : Heap) (acc : Totals.t) (fleet : list Vessel),
    Forall2 (fun ref v => deref h ref = Some v) refs fleet ->
    match mapVessels fleet year acc with
    | Ok (results, acc') =>
        exists refs',
          mapVesselsAt h refs year acc
          = (h ++ map toObject results, Ok (refs', acc'))
    | Throw e =>
        exists h', mapVesselsAt h refs year acc = (h', Throw e)
    end.
Proof.
  induction refs as [| ref refs IH]; intros h acc fleet Hf;
    inversion Hf as [| ? v ? fleet' Hv Hrest]; subst;
    cbn [mapVessels mapVesselsAt].
  - exists []. now rewrite app_nil_r.
  - unfold callAt. rewrite Hv.
    destruct (falsy (prop complianceTargets year)) eqn:Ef.
    + rewrite (calculateVesselCompliance_throws v year)
        by (unfold validYear; now rewrite Ef).
      cbn [bind]. now exists h.
    + rewrite (calculateVesselCompliance_ok v year)
        by (unfold validYear; now rewrite Ef).
      set (r := vesselResult v year (numberOf (prop complianceTargets year))).
      cbn [bind alloc].
      pose proof (alloc_unchanged h (toObject r)) as H1. cbn [alloc fst] in H1.
      rewrite (H1 ref v Hv).
      assert (Hrest' : Forall2 (fun ref v => deref (h ++ [toObject r]) ref
                                             = Some v) refs fleet').
      { apply Forall2_impl with (2 := Hrest). intros a b Hab. now apply H1. }
      specialize (IH (h ++ [toObject r]) (accumulate v r acc) fleet' Hrest').
      destruct (mapVessels fleet' year (accumulate v r acc))
        as [[results acc'] | e]; cbn [bind fst snd].
      * destruct IH as [refs' E]. eexists. rewrite E. cbn [fst snd].
        rewrite <- app_assoc. reflexivity.
      * destruct IH as [h' E]. exists h'. rewrite E. reflexivity.
Qed.

Lemma calculatePoolComplianceAt_values
      (h : Heap) (refs : list Ref) (fleet : list Vessel) (year : Z)
      (p : PoolResult) :
  Forall2 (fun ref v => deref h ref = Some v) refs fleet ->
  calculatePoolCompliance fleet year = Ok p ->
  exists refs',
    calculatePoolComplianceAt h refs year
    = (h ++ map toObject (vessels p), Ok (refs', summary p)).
Proof.
  intros Hf. unfold calculatePoolCompliance, calculatePoolComplianceAt.
  inversion Hf as [| ref v refs0 fleet0 Hv Hrest]; subst.
  - intro E. injection E as <-. exists []. now rewrite app_nil_r.
  - pose proof (mapVesselsAt_values (ref :: refs0) year h Totals.zero
                                    (v :: fleet0) Hf) as H.
    destruct (mapVessels (v :: fleet0) year Totals.zero)
      as [[results acc'] | e]; cbn [bind]; [| discriminate ].
    intro E. injection E as <-. cbn [vessels summary fst snd].
    destruct H as [refs' ->]. exists refs'.
    cbn [fst snd]. unfold lengthOf. rewrite (Forall2_length Hf). reflexivity.
Qed.

Lemma forwardedKeys_not_computed (key : string) :
  In key forwardedKeys -> ~ In key computedKeys.
Proof.
  intros Hin Hc. unfold forwardedKeys in Hin. unfold computedKeys in Hc.
  simpl in Hin, Hc.
  repeat (destruct Hin as [<- | Hin];
          [ repeat (destruct Hc as [Hc | Hc]; [ discriminate Hc |]);
            exact Hc |]).
  exact Hin.
Qed.

(** The stored status of a vessel is one of the names the [return]
    statement writes: the result carries the computed status. *)
Example stored_status_is_replaced :
  exists r,
    calculateVesselCompliance balticVoyager 2025 = Ok r /\
    getProp "status" balticVoyager = Some (VStr "at-risk") /\
    getProp "status" (toObject r) = Some (VStr "non-compliant") /\
    getProp "name" (toObject r) = Some (VStr "Baltic Voyager").
Proof.
  eexists. split; [ reflexivity |].
  repeat split; reflexivity.
Qed.

(** C9.  A call of [calculateVesselCompliance] or of
    [calculatePoolCompliance] on references to vessel objects leaves
    every object that existed before the call as it was, whether the
    call returns or throws; each result is a new object that has every
    property of its vessel with the vessel's value, except for the ten
    names the [return] statement writes; the identity and metadata
    properties (id, name, imo, type, pool, owner, dateAdded,
    lastUpdated) and the two inputs are not among those names. *)
Theorem inputs_unchanged_metadata_forwarded
        (h : Heap) (vessel : Ref) (refs : list Ref) (year : Z) :
  Forall (fun ref => (ref < List.length h)%nat) (vessel :: refs) ->
  unchanged h (fst (calculateVesselComplianceAt h vessel year)) /\
  unchanged h (fst (calculatePoolComplianceAt h refs year)) /\
  (forall ref,
     snd (calculateVesselComplianceAt h vessel year) = Ok ref ->
     forwardedAt h (fst (calculateVesselComplianceAt h vessel year))
                 vessel ref) /\
  (forall results s,
     snd (calculatePoolComplianceAt h refs year) = Ok (results, s) ->
     Forall2 (forwardedAt h (fst (calculatePoolComplianceAt h refs year)))
             refs results) /\
  (forall key, In key forwardedKeys -> ~ In key computedKeys).
Proof.
  intros Hvalid.
  inversion Hvalid as [| ? ? Hvessel Hrefs]; subst.
  split; [ apply calculateVesselComplianceAt_unchanged |].
  split; [ apply calculatePoolComplianceAt_unchanged |].
  split.
  - intros ref Hok.
    now apply calculateVesselComplianceAt_forwards.
  - split.
    + intros results s Hok.
      now apply (calculatePoolComplianceAt_forwards h refs year results s).
    + apply forwardedKeys_not_computed.
Qed.

(** Two calls on the registry of the sample data: the three vessels stay
    as they were and the result of Baltic Voyager carries its name. *)
Lemma inputs_unchanged_metadata_forwarded_witness :
  unchanged registry (fst (calculatePoolComplianceAt registry [0; 1; 2]%nat 2025)) /\
  deref (fst (calculatePoolComplianceAt registry [0; 1; 2]%nat 2025)) 2%nat
  = Some balticVoyager /\
  exists o,
    deref (fst (calculateVesselComplianceAt registry 2%nat 2025)) 3%nat = Some o /\
    getProp "name" o = Some (VStr "Baltic Voyager").
Proof.
  destruct (inputs_unchanged_metadata_forwarded registry 2%nat [0; 1; 2]%nat 2025)
    as (_ & Hall & Hone & _ & Hkeys).
  { repeat constructor. }
  split; [ exact Hall |].
  split; [ apply Hall; reflexivity |].
  destruct (Hone 3%nat eq_refl) as (v & o & Hv & Ho & Hf).
  exists o. split; [ exact Ho |].
  rewrite (Hf "name"%string).
  - injection Hv as <-. reflexivity.
  - apply Hkeys. unfold forwardedKeys. simpl. auto.
Defined.

(** * Further properties of the calculator *)

(** ** Helpers *)

Lemma toFixed_nonpos (d : nat) (x : Q) : x <= 0 -> toFixed d x <= 0.
Proof.
  intro H. rewrite <- (toFixed_0 d). now apply toFixed_mono.
Qed.

(** Rounding twice to the same precision is rounding once. *)
Lemma toFixed_idempotent (d : nat) (x : Q) :
  toFixed d (toFixed d x) == toFixed d x.
Proof. apply toFixed_decimals, decimals_toFixed. Qed.

(** Every year is charged at 640: the table has no other rate and a
    year without a rate takes the one of 2030. *)
Lemma penaltyRateFor_640 (year : Z) : penaltyRateFor year = 640.
Proof.
  unfold penaltyRateFor, penaltyRates. simpl.
  repeat (destruct (Z.eqb year _); [ reflexivity |]).
  reflexivity.
Qed.

(** The valid years: 2025 to 2029 at 2 %, 2030 to 2032 at 6 %. *)
Lemma validYear_range (year : Z) :
  validYear year = true ->
  ((2025 <= year <= 2029)%Z /\ targetOf year = 2 # 100) \/
  ((2030 <= year <= 2032)%Z /\ targetOf year = 6 # 100).
Proof.
  unfold validYear, targetOf, complianceTargets. simpl.
  repeat match goal with
         | |- context [ (year =? ?k)%Z ] =>
             destruct (Z.eqb_spec year k);
             [ subst; intros _; simpl; first [ left; split; [ lia | reflexivity ]
                                              | right; split; [ lia | reflexivity ] ]
             |]
         end.
  discriminate.
Qed.

Lemma in_range_validYear (year : Z) :
  (2025 <= year <= 2032)%Z -> validYear year = true.
Proof.
  intro H.
  assert (E : year = 2025%Z \/ year = 2026%Z \/ year = 2027%Z \/ year = 2028%Z
              \/ year = 2029%Z \/ year = 2030%Z \/ year = 2031%Z
              \/ year = 2032%Z) by lia.
  repeat (destruct E as [-> | E]; [ reflexivity |]).
  subst. reflexivity.
Qed.

(** The target intensity never rises from a valid year to a later one. *)
Lemma targetIntensityOf_antitone (y1 y2 : Z) :
  validYear y1 = true -> validYear y2 = true -> (y1 <= y2)%Z ->
  targetIntensityOf y2 <= targetIntensityOf y1.
Proof.
  intros H1 H2 Hle. unfold targetIntensityOf.
  destruct (validYear_range y1 H1) as [[R1 ->] | [R1 ->]];
    destruct (validYear_range y2 H2) as [[R2 ->] | [R2 ->]];
    try lia; vm_compute; discriminate.
Qed.

Lemma targetIntensityOf_pos (year : Z) :
  validYear year = true -> 0 < targetIntensityOf year.
Proof. exact (targetIntensity_pos year). Qed.

(** The sign of a product with a positive factor. *)
Lemma Qmult_pos_neg_iff (x c : Q) : 0 < c -> (x * c < 0 <-> x < 0).
Proof.
  intro Hc. split; intro H.
  - destruct (Qlt_le_dec x 0) as [Hx | Hx]; [ exact Hx |].
    pose proof (Qmult_le_0_compat x c Hx (Qlt_le_weak _ _ Hc)). lra.
  - setoid_replace 0 with (0 * c) by ring.
    apply Qmult_lt_compat_r; assumption.
Qed.

Lemma complianceBalance_neg_iff (ti : Q) (vessel : Vessel) :
  0 < fuelConsumption vessel ->
  (Calc.complianceBalance ti vessel < 0 <-> ti < ghgIntensity vessel).
Proof.
  intro Hf. unfold Calc.complianceBalance, Calc.deviation.
  assert (E : (ti - ghgIntensity vessel) * fuelConsumption vessel / 1000000
              == (ti - ghgIntensity vessel)
                 * (fuelConsumption vessel / 1000000)) by (field).
  rewrite E.
  assert (Hc : 0 < fuelConsumption vessel / 1000000).
  { apply Qlt_shift_div_l; [ reflexivity | lra ]. }
  rewrite (Qmult_pos_neg_iff _ _ Hc). split; intro; lra.
Qed.

(** With no fuel the balance is never negative, and with fuel it is
    negative exactly above the target. *)
Lemma complianceBalance_neg_above (ti : Q) (vessel : Vessel) :
  0 <= fuelConsumption vessel ->
  Calc.complianceBalance ti vessel < 0 -> ti < ghgIntensity vessel.
Proof.
  intros Hf Hneg.
  destruct (Qlt_le_dec 0 (fuelConsumption vessel)) as [Hpos | Hzero].
  - now apply (complianceBalance_neg_iff ti vessel Hpos).
  - exfalso. assert (E0 : fuelConsumption vessel == 0) by lra.
    unfold Calc.complianceBalance in Hneg. rewrite E0 in Hneg.
    assert (Ez : Calc.deviation ti vessel * 0 / 1000000 == 0) by (field).
    rewrite Ez in Hneg. lra.
Qed.

Lemma Status_eqb_compliant (s : Status) :
  Status_eqb s compliant = true <-> s = compliant.
Proof. destruct s; simpl; split; congruence. Qed.

Lemma status_compliant_iff (ti : Q) (vessel : Vessel) :
  Calc.status ti vessel = compliant <-> 0 <= Calc.complianceBalance ti vessel.
Proof.
  unfold Calc.status.
  by_cases_on (Qlt_bool (Calc.complianceBalance ti vessel) 0);
    split; intro H; try discriminate; try reflexivity; try assumption; lra.
Qed.

Lemma status_non_compliant_iff (ti : Q) (vessel : Vessel) :
  Calc.status ti vessel = non_compliant
  <-> Calc.complianceBalance ti vessel < 0.
Proof.
  unfold Calc.status.
  by_cases_on (Qlt_bool (Calc.complianceBalance ti vessel) 0);
    split; intro H; try discriminate; try reflexivity; try assumption; lra.
Qed.

(** ** validateInputs *)

Lemma notPositive_false_iff (x : Q) : notPositive x = false <-> 0 < x.
Proof.
  unfold notPositive. rewrite orb_false_iff. split.
  - intros [_ H]. now apply Qle_bool_false_iff.
  - intro H. split.
    + destruct (Qeq_bool x 0) eqn:E; [| reflexivity ].
      apply Qeq_bool_iff in E. lra.
    + now apply Qle_bool_false_iff.
Qed.

Lemma app3_nil {A : Type} (a b c : list A) :
  a ++ b ++ c = [] <-> a = [] /\ b = [] /\ c = [].
Proof.
  split.
  - intro H. apply app_eq_nil in H. destruct H as [Ha H].
    apply app_eq_nil in H. tauto.
  - intros (-> & -> & ->). reflexivity.
Qed.

(** X1.  [validateInputs] returns no message exactly when a vessel is
    given, its fuel consumption and its intensity are positive, and the
    year has a target. *)
Theorem validateInputs_accepts_iff (vessel : option Vessel) (year : Z) :
  validateInputs vessel year = [] <->
  exists v,
    vessel = Some v /\
    0 < fuelConsumption v /\ 0 < ghgIntensity v /\ validYear year = true.
Proof.
  destruct vessel as [v |]; cbn [validateInputs].
  - rewrite app3_nil. split.
    + intros (Hf & Hg & Hy). exists v. split; [ reflexivity |].
      split.
      { apply notPositive_false_iff.
        destruct (notPositive (fuelConsumption v)); [ discriminate | reflexivity ]. }
      split.
      { apply notPositive_false_iff.
        destruct (notPositive (ghgIntensity v)); [ discriminate | reflexivity ]. }
      unfold validYear.
      destruct (falsy (prop complianceTargets year)); [ discriminate | reflexivity ].
    + intros (w & Ew & Hf & Hg & Hy). injection Ew as <-.
      apply notPositive_false_iff in Hf. apply notPositive_false_iff in Hg.
      rewrite Hf, Hg, (validYear_falsy year Hy). auto.
  - split; [ discriminate |].
    intros (w & Ew & _). discriminate.
Qed.

(** X2.  Inputs that [validateInputs] accepts make no operation on one
    vessel throw: [calculateVesselCompliance], [suggestImprovements] and
    [calculateBankingBorrowing] all return, and so does
    [calculatePoolCompliance] on a list of accepted vessels. *)
Theorem validated_inputs_never_throw (fleet : list Vessel) (year : Z) :
  fleet <> [] ->
  Forall (fun v => validateInputs (Some v) year = []) fleet ->
  (exists p, calculatePoolCompliance fleet year = Ok p) /\
  Forall (fun v =>
            (exists r, calculateVesselCompliance v year = Ok r) /\
            (exists a, suggestImprovements v year = Ok a) /\
            (exists b, calculateBankingBorrowing v year = Ok b))
         fleet.
Proof.
  intros Hne Hall.
  assert (Hy : validYear year = true).
  { destruct fleet as [| v vs]; [ congruence |].
    inversion Hall as [| ? ? Hv _]; subst.
    apply validateInputs_accepts_iff in Hv.
    destruct Hv as (w & _ & _ & _ & Hy). exact Hy. }
  split; [ now apply calculatePoolCompliance_returns |].
  apply Forall_forall. intros v _.
  pose proof (calculateVesselCompliance_ok v year Hy) as Er.
  split; [ eexists; exact Er |].
  split.
  - unfold suggestImprovements. rewrite Er. cbn [bind].
    destruct (Status_eqb _ compliant); eexists; reflexivity.
  - unfold calculateBankingBorrowing. rewrite Er. cbn [bind].
    eexists. reflexivity.
Qed.

Lemma validated_inputs_never_throw_witness :
  exists p, calculatePoolCompliance poolB 2027 = Ok p.
Proof.
  destruct (validated_inputs_never_throw poolB 2027) as [Hp _].
  - discriminate.
  - repeat constructor.
  - exact Hp.
Defined.

(** X3.  For a given vessel, [validateInputs] reports the invalid year
    exactly when [calculateVesselCompliance] throws for it; it reports
    at most three messages; and for a missing vessel it reports the
    missing vessel only, without looking at the year. *)
Theorem validateInputs_year_message (vessel : Vessel) (year : Z) :
  (In (InvalidYearMsg year) (validateInputs (Some vessel) year) <->
   calculateVesselCompliance vessel year = Throw (InvalidYear year)) /\
  (List.length (validateInputs (Some vessel) year) <= 3)%nat /\
  ~ In (InvalidYearMsg year) (validateInputs None year).
Proof.
  split; [| split ].
  - cbn [validateInputs]. unfold calculateVesselCompliance.
    destruct (falsy (prop complianceTargets year)).
    + split; [ reflexivity |]. intros _.
      apply in_or_app. right. apply in_or_app. right. left. reflexivity.
    + split; [| discriminate ].
      intro H. exfalso.
      apply in_app_or in H. destruct H as [H | H].
      * destruct (notPositive (fuelConsumption vessel)); simpl in H;
          [ destruct H as [H | []]; discriminate H | exact H ].
      * apply in_app_or in H. destruct H as [H | H]; [| exact H ].
        destruct (notPositive (ghgIntensity vessel)); simpl in H;
          [ destruct H as [H | []]; discriminate H | exact H ].
  - cbn [validateInputs]. rewrite !length_app.
    destruct (notPositive (fuelConsumption vessel));
      destruct (notPositive (ghgIntensity vessel));
      destruct (falsy (prop complianceTargets year)); simpl; lia.
  - simpl. intros [H | []]. discriminate H.
Qed.

(** ** One vessel: status, signs and years *)

(** X4.  For a vessel with positive fuel consumption and a valid year,
    the status is compliant exactly when the intensity is at most the
    target intensity, and exactly when the score is 100; it is
    non-compliant exactly when the intensity is above the target. *)
Theorem status_follows_target (vessel : Vessel) (year : Z) :
  0 < fuelConsumption vessel -> validYear year = true ->
  exists r,
    calculateVesselCompliance vessel year = Ok r /\
    (status r = compliant <-> ghgIntensity vessel <= targetIntensityOf year) /\
    (status r = non_compliant <-> targetIntensityOf year < ghgIntensity vessel) /\
    (status r = compliant <-> complianceScore r == 100).
Proof.
  intros Hf Hy. eexists.
  split; [ apply (calculateVesselCompliance_ok vessel year Hy) |].
  cbn [status complianceScore vesselResult].
  change (Calc.targetIntensity (numberOf (prop complianceTargets year)))
    with (targetIntensityOf year).
  set (ti := targetIntensityOf year).
  pose proof (targetIntensityOf_pos year Hy) as Hti. fold ti in Hti.
  pose proof (complianceBalance_neg_iff ti vessel Hf) as Hneg.
  assert (Hc : Calc.status ti vessel = compliant <-> ghgIntensity vessel <= ti).
  { rewrite status_compliant_iff. split; intro H.
    - apply Qnot_lt_le. intro Habove. apply Hneg in Habove. lra.
    - apply Qnot_lt_le. intro Hb. apply Hneg in Hb. lra. }
  split; [ exact Hc |].
  split.
  - rewrite status_non_compliant_iff. exact Hneg.
  - rewrite Hc. split; intro H.
    + now apply score_compliant.
    + apply Qnot_lt_le. intro Habove.
      pose proof (score_deficit_range ti Hti _ Habove). lra.
Qed.

Lemma status_follows_target_witness :
  exists r,
    calculateVesselCompliance medPrincess 2025 = Ok r /\
    status r = non_compliant.
Proof.
  destruct (status_follows_target medPrincess 2025) as (r & Er & _ & Hn & _);
    [ reflexivity | reflexivity |].
  exists r. split; [ exact Er |].
  apply Hn. reflexivity.
Defined.

(** X5.  In a valid year the returned penalty is never negative; a
    compliant status comes with a returned balance that is not negative
    and a penalty of zero, a non-compliant status with a returned
    balance that is not positive. *)
Theorem status_agrees_with_signs (vessel : Vessel) (year : Z) :
  validYear year = true ->
  exists r,
    calculateVesselCompliance vessel year = Ok r /\
    0 <= potentialPenalty r /\
    (status r = compliant ->
     0 <= complianceBalance r /\ potentialPenalty r == 0) /\
    (status r = non_compliant -> complianceBalance r <= 0).
Proof.
  intro Hy. eexists.
  split; [ apply (calculateVesselCompliance_ok vessel year Hy) |].
  cbn [status complianceBalance potentialPenalty vesselResult].
  set (ti := Calc.targetIntensity (numberOf (prop complianceTargets year))).
  rewrite penaltyRateFor_640.
  assert (Hpen : 0 <= Calc.potentialPenalty 640 ti vessel).
  { unfold Calc.potentialPenalty.
    destruct (Qlt_bool (Calc.complianceBalance ti vessel) 0); [| lra ].
    pose proof (Qabs_nonneg (Calc.complianceBalance ti vessel)) as Ha.
    unfold Qdiv. apply Qmult_le_0_compat; [| vm_compute; discriminate ].
    apply Qmult_le_0_compat; [ exact Ha | vm_compute; discriminate ]. }
  split; [ now apply toFixed_nonneg |].
  split.
  - intro Hs. apply status_compliant_iff in Hs.
    split; [ now apply toFixed_nonneg |].
    unfold Calc.potentialPenalty.
    apply Qlt_bool_false_iff in Hs. rewrite Hs. apply toFixed_0.
  - intro Hs. apply status_non_compliant_iff in Hs.
    apply toFixed_nonpos. lra.
Qed.

Lemma status_agrees_with_signs_witness :
  exists r,
    calculateVesselCompliance pacificTrader 2025 = Ok r /\
    0 <= complianceBalance r /\ potentialPenalty r == 0.
Proof.
  destruct (status_agrees_with_signs pacificTrader 2025 eq_refl)
    as (r & Er & _ & Hc & _).
  exists r. split; [ exact Er |].
  apply Hc.
  rewrite (calculateVesselCompliance_ok pacificTrader 2025 eq_refl) in Er.
  injection Er as <-. reflexivity.
Defined.

(** X6.  A vessel without fuel consumption is compliant in every valid
    year whatever its intensity: balance, both energy values and penalty
    are zero, and it can neither bank nor borrow. *)
Theorem vessel_without_fuel (vessel : Vessel) (year : Z) :
  fuelConsumption vessel == 0 -> validYear year = true ->
  exists r b,
    calculateVesselCompliance vessel year = Ok r /\
    calculateBankingBorrowing vessel year = Ok b /\
    status r = compliant /\
    complianceBalance r == 0 /\
    energyDeficit r == 0 /\ energySurplus r == 0 /\
    potentialPenalty r == 0 /\
    Banking.canBank b = false /\ Banking.canBorrow b = false /\
    Banking.bankingCapacity b == 0 /\ Banking.borrowingCapacity b == 0.
Proof.
  intros Hf Hy.
  pose proof (calculateVesselCompliance_ok vessel year Hy) as Er.
  set (r := vesselResult vessel year (numberOf (prop complianceTargets year)))
    in *.
  set (ti := Calc.targetIntensity (numberOf (prop complianceTargets year))).
  assert (Hb : Calc.complianceBalance ti vessel == 0).
  { unfold Calc.complianceBalance. rewrite Hf. field. }
  assert (Hd : Calc.energyDeficit ti vessel == 0).
  { unfold Calc.energyDeficit. rewrite Hf.
    setoid_replace (Calc.deviation ti vessel * 0) with 0 by ring.
    reflexivity. }
  assert (Hs : Calc.energySurplus ti vessel == 0).
  { unfold Calc.energySurplus. rewrite Hf.
    setoid_replace (- Calc.deviation ti vessel * 0) with 0 by ring.
    reflexivity. }
  assert (Hrd : energyDeficit r == 0).
  { unfold r. cbn [energyDeficit vesselResult]. fold ti.
    rewrite Hd. apply toFixed_0. }
  assert (Hrs : energySurplus r == 0).
  { unfold r. cbn [energySurplus vesselResult]. fold ti.
    rewrite Hs. apply toFixed_0. }
  exists r. eexists.
  split; [ exact Er |].
  split; [ unfold calculateBankingBorrowing; rewrite Er; reflexivity |].
  split.
  { unfold r. cbn [status vesselResult]. fold ti.
    apply status_compliant_iff. lra. }
  split.
  { unfold r. cbn [complianceBalance vesselResult]. fold ti.
    rewrite Hb. apply toFixed_0. }
  split; [ exact Hrd |].
  split; [ exact Hrs |].
  split.
  { unfold r. cbn [potentialPenalty vesselResult]. fold ti.
    unfold Calc.potentialPenalty.
    assert (Hnot : Qlt_bool (Calc.complianceBalance ti vessel) 0 = false).
    { apply Qlt_bool_false_iff. lra. }
    rewrite Hnot. apply toFixed_0. }
  cbn [Banking.canBank Banking.canBorrow Banking.bankingCapacity
       Banking.borrowingCapacity].
  assert (Hns : Qlt_bool 0 (energySurplus r) = false).
  { apply Qlt_bool_false_iff. lra. }
  assert (Hnd : Qlt_bool 0 (energyDeficit r) = false).
  { apply Qlt_bool_false_iff. lra. }
  rewrite Hns, Hnd.
  repeat split; try reflexivity; apply toFixed_0.
Qed.

Lemma vessel_without_fuel_witness :
  exists r,
    calculateVesselCompliance (mkVessel 0 (9512 # 100) []) 2030 = Ok r /\
    status r = compliant.
Proof.
  destruct (vessel_without_fuel (mkVessel 0 (9512 # 100) []) 2030)
    as (r & b & Er & _ & Hs & _); [ reflexivity | reflexivity |].
  exists r. split; assumption.
Defined.

(** The unrounded balance follows the target intensity. *)
Lemma complianceBalance_mono_target (t1 t2 : Q) (vessel : Vessel) :
  0 <= fuelConsumption vessel -> t2 <= t1 ->
  Calc.complianceBalance t2 vessel <= Calc.complianceBalance t1 vessel.
Proof.
  intros Hf Ht. unfold Calc.complianceBalance, Calc.deviation.
  unfold Qdiv. apply Qmult_le_compat_r; [| vm_compute; discriminate ].
  apply Qmult_le_compat_r; [ lra | exact Hf ].
Qed.

(** The unrounded penalty, as a function of the unrounded balance. *)
Lemma potentialPenalty_as_max (rate ti : Q) (vessel : Vessel) :
  Calc.potentialPenalty rate ti vessel
  == Qmax 0 (- Calc.complianceBalance ti vessel) * rate / 1000000.
Proof.
  unfold Calc.potentialPenalty.
  by_cases_on (Qlt_bool (Calc.complianceBalance ti vessel) 0).
  - rewrite Qabs_neg by lra. rewrite Q.max_r by lra. reflexivity.
  - rewrite Q.max_l by lra. field.
Qed.

Lemma potentialPenalty_antitone (t1 t2 : Q) (vessel : Vessel) :
  Calc.complianceBalance t2 vessel <= Calc.complianceBalance t1 vessel ->
  Calc.potentialPenalty 640 t1 vessel <= Calc.potentialPenalty 640 t2 vessel.
Proof.
  intro H. rewrite !potentialPenalty_as_max.
  unfold Qdiv. apply Qmult_le_compat_r; [| vm_compute; discriminate ].
  apply Qmult_le_compat_r; [| vm_compute; discriminate ].
  apply Q.max_le_compat_l. lra.
Qed.

(** A looser target never lowers the score. *)
Lemma score_mono_target (a t1 t2 : Q) :
  0 < t1 -> t1 <= t2 ->
  calculateComplianceScore a t1 <= calculateComplianceScore a t2.
Proof.
  intros H1 H12.
  assert (H2 : 0 < t2) by lra.
  destruct (Qlt_le_dec t2 a) as [Ha | Ha].
  - rewrite (score_deficit t1 a ltac:(lra)), (score_deficit t2 a Ha).
    unfold penaltyScore. apply Q.max_le_compat_l.
    assert (Hr : (a - t2) / t2 <= (a - t1) / t1).
    { apply Qle_shift_div_r; [ exact H2 |].
      pose proof (ratio_nonneg t1 H1 (a - t1) ltac:(lra)) as Hu.
      assert (Eu : (a - t1) / t1 * t1 == a - t1) by (field; lra).
      pose proof (Qmult_le_compat_r t1 t2 ((a - t1) / t1) H12 Hu) as Hm.
      lra. }
    lra.
  - rewrite (score_compliant t2 H2 a Ha).
    pose proof (score_range t1 H1 a). lra.
Qed.

(** X7.  The targets tighten: from a valid year to a later valid year
    the target intensity of a vessel with fuel consumption not below
    zero does not rise, its balance and its score do not rise, its
    penalty does not fall, and a vessel that is compliant in the later
    year is compliant in the earlier one. *)
Theorem later_year_is_stricter (vessel : Vessel) (y1 y2 : Z) :
  0 <= fuelConsumption vessel ->
  validYear y1 = true -> validYear y2 = true -> (y1 <= y2)%Z ->
  exists r1 r2,
    calculateVesselCompliance vessel y1 = Ok r1 /\
    calculateVesselCompliance vessel y2 = Ok r2 /\
    targetIntensity r2 <= targetIntensity r1 /\
    complianceBalance r2 <= complianceBalance r1 /\
    complianceScore r2 <= complianceScore r1 /\
    potentialPenalty r1 <= potentialPenalty r2 /\
    (status r2 = compliant -> status r1 = compliant).
Proof.
  intros Hf H1 H2 Hle.
  pose proof (targetIntensityOf_antitone y1 y2 H1 H2 Hle) as Ht.
  pose proof (targetIntensityOf_pos y2 H2) as Hpos.
  unfold targetIntensityOf, targetOf in Ht, Hpos.
  eexists. eexists.
  split; [ apply (calculateVesselCompliance_ok vessel y1 H1) |].
  split; [ apply (calculateVesselCompliance_ok vessel y2 H2) |].
  cbn [targetIntensity complianceBalance complianceScore potentialPenalty
       status vesselResult].
  set (t1 := Calc.targetIntensity (numberOf (prop complianceTargets y1))) in *.
  set (t2 := Calc.targetIntensity (numberOf (prop complianceTargets y2))) in *.
  pose proof (complianceBalance_mono_target t1 t2 vessel Hf Ht) as Hb.
  rewrite !penaltyRateFor_640.
  split; [ now apply toFixed_mono |].
  split; [ now apply toFixed_mono |].
  split; [ now apply score_mono_target |].
  split; [ now apply toFixed_mono, potentialPenalty_antitone |].
  rewrite !status_compliant_iff. lra.
Qed.

Lemma later_year_is_stricter_witness :
  exists r1 r2,
    calculateVesselCompliance pacificTrader 2029 = Ok r1 /\
    calculateVesselCompliance pacificTrader 2030 = Ok r2 /\
    complianceScore r2 <= complianceScore r1 /\
    potentialPenalty r1 <= potentialPenalty r2.
Proof.
  destruct (later_year_is_stricter pacificTrader 2029 2030)
    as (r1 & r2 & E1 & E2 & _ & _ & Hs & Hp & _);
    [ vm_compute; discriminate | reflexivity | reflexivity | lia |].
  exists r1, r2. repeat split; assumption.
Defined.

(** ** Banking and borrowing *)

Lemma toFixed_0_of_toFixed_0 (x : Q) : toFixed 0 (toFixed 0 x) == toFixed 0 x.
Proof. apply toFixed_idempotent. Qed.

(** X9.  In a valid year a vessel is never offered banking and borrowing
    at once; it can bank exactly when its returned energy surplus and its
    fuel consumption are positive; the banking capacity is at most the
    returned energy surplus and the borrowing capacity at most the
    returned energy deficit; the two limits are equal; and for a fuel
    consumption not below zero each capacity lies between zero and its
    limit. *)
Theorem banking_exclusive_and_bounded (vessel : Vessel) (year : Z) :
  validYear year = true ->
  exists r b,
    calculateVesselCompliance vessel year = Ok r /\
    calculateBankingBorrowing vessel year = Ok b /\
    (Banking.canBank b = false \/ Banking.canBorrow b = false) /\
    (Banking.canBank b = true
     <-> 0 < energySurplus r /\ 0 < fuelConsumption vessel) /\
    (Banking.canBorrow b = true
     <-> 0 < energyDeficit r /\ 0 < fuelConsumption vessel) /\
    Banking.bankingCapacity b <= energySurplus r /\
    Banking.borrowingCapacity b <= energyDeficit r /\
    Banking.bankingLimitMJ b == Banking.borrowingLimitMJ b /\
    (0 <= fuelConsumption vessel ->
     0 <= Banking.bankingCapacity b <= Banking.bankingLimitMJ b /\
     0 <= Banking.borrowingCapacity b <= Banking.borrowingLimitMJ b).
Proof.
  intro Hy.
  destruct (energy_exclusive vessel year Hy)
    as (r & Er & Hd0 & Hs0 & Hex & _).
  exists r. eexists.
  split; [ exact Er |].
  split; [ unfold calculateBankingBorrowing; rewrite Er; reflexivity |].
  cbn [Banking.canBank Banking.canBorrow Banking.bankingCapacity
       Banking.borrowingCapacity Banking.bankingLimitMJ
       Banking.borrowingLimitMJ].
  set (f := fuelConsumption vessel).
  assert (Elim : f * bankingLimit == f * (5 # 100)) by reflexivity.
  assert (Elim' : f * borrowingLimit == f * (5 # 100)) by reflexivity.
  assert (Hrs : toFixed 0 (energySurplus r) == energySurplus r).
  { rewrite (calculateVesselCompliance_ok vessel year Hy) in Er.
    injection Er as <-. apply toFixed_idempotent. }
  assert (Hrd : toFixed 0 (energyDeficit r) == energyDeficit r).
  { rewrite (calculateVesselCompliance_ok vessel year Hy) in Er.
    injection Er as <-. apply toFixed_idempotent. }
  assert (Hbank :
            Qlt_bool 0 (if Qlt_bool 0 (energySurplus r)
                        then Qmin (energySurplus r) (f * bankingLimit)
                        else 0) = true
            <-> 0 < energySurplus r /\ 0 < f).
  { rewrite Qlt_bool_iff.
    by_cases_on (Qlt_bool 0 (energySurplus r)).
    - split.
      + intro H. split; [ assumption |].
        pose proof (Q.le_min_r (energySurplus r) (f * bankingLimit)). lra.
      + intros [_ Hf].
        destruct (Q.min_spec (energySurplus r) (f * bankingLimit))
          as [[_ ->] | [_ ->]]; lra.
    - split; intro H; lra. }
  assert (Hborrow :
            Qlt_bool 0 (if Qlt_bool 0 (energyDeficit r)
                        then Qmin (energyDeficit r) (f * borrowingLimit)
                        else 0) = true
            <-> 0 < energyDeficit r /\ 0 < f).
  { rewrite Qlt_bool_iff.
    by_cases_on (Qlt_bool 0 (energyDeficit r)).
    - split.
      + intro H. split; [ assumption |].
        pose proof (Q.le_min_r (energyDeficit r) (f * borrowingLimit)). lra.
      + intros [_ Hf].
        destruct (Q.min_spec (energyDeficit r) (f * borrowingLimit))
          as [[_ ->] | [_ ->]]; lra.
    - split; intro H; lra. }
  split.
  { destruct Hex as [Hz | Hz].
    - right. apply not_true_is_false. intro H. apply Hborrow in H. lra.
    - left. apply not_true_is_false. intro H. apply Hbank in H. lra. }
  split; [ exact Hbank |].
  split; [ exact Hborrow |].
  split.
  { apply Qle_trans with (toFixed 0 (energySurplus r));
      [| rewrite Hrs; apply Qle_refl ].
    apply toFixed_mono.
    by_cases_on (Qlt_bool 0 (energySurplus r)); [ apply Q.le_min_l | exact Hs0 ]. }
  split.
  { apply Qle_trans with (toFixed 0 (energyDeficit r));
      [| rewrite Hrd; apply Qle_refl ].
    apply toFixed_mono.
    by_cases_on (Qlt_bool 0 (energyDeficit r)); [ apply Q.le_min_l | exact Hd0 ]. }
  split; [ reflexivity |].
  intro Hf.
  split; split.
  - apply toFixed_nonneg.
    by_cases_on (Qlt_bool 0 (energySurplus r)); [| lra ].
    destruct (Q.min_spec (energySurplus r) (f * bankingLimit))
      as [[_ ->] | [_ ->]]; lra.
  - apply toFixed_mono.
    by_cases_on (Qlt_bool 0 (energySurplus r)); [ apply Q.le_min_r | lra ].
  - apply toFixed_nonneg.
    by_cases_on (Qlt_bool 0 (energyDeficit r)); [| lra ].
    destruct (Q.min_spec (energyDeficit r) (f * borrowingLimit))
      as [[_ ->] | [_ ->]]; lra.
  - apply toFixed_mono.
    by_cases_on (Qlt_bool 0 (energyDeficit r)); [ apply Q.le_min_r | lra ].
Qed.

Lemma banking_exclusive_and_bounded_witness :
  exists b,
    calculateBankingBorrowing medPrincess 2025 = Ok b /\
    (Banking.canBank b = false \/ Banking.canBorrow b = false) /\
    Banking.bankingCapacity b <= Banking.bankingLimitMJ b.
Proof.
  destruct (banking_exclusive_and_bounded medPrincess 2025 eq_refl)
    as (r & b & _ & Eb & Hex & _ & _ & _ & _ & _ & Hbound).
  exists b. split; [ exact Eb |].
  split; [ exact Hex |].
  apply Hbound. vm_compute. discriminate.
Defined.

(** ** Suggestions *)

(** X10.  In a valid year [suggestImprovements] reports the status of
    [calculateVesselCompliance]; for a compliant vessel it gives the one
    maintenance suggestion and no number; for a non-compliant vessel it
    gives one of the three tiers followed by the target line, whose two
    numbers are the reported percentage and target intensity; the
    reported reduction is the intensity less the target intensity to two
    decimals, less than 0.01 away from it. *)
Theorem suggestions_follow_status (vessel : Vessel) (year : Z) :
  validYear year = true ->
  exists r a,
    calculateVesselCompliance vessel year = Ok r /\
    suggestImprovements vessel year = Ok a /\
    Advice.status a = status r /\
    (status r = compliant ->
     Advice.suggestions a = maintainAdvice /\
     Advice.requiredReduction a = None /\
     Advice.requiredReductionPercent a = None /\
     Advice.targetIntensity a = None) /\
    (status r = non_compliant ->
     exists tier percent reduction,
       (tier = operationalTier \/ tier = blendingTier
        \/ tier = transitionTier) /\
       Advice.suggestions a
       = tier ++ [ TargetLine percent (toFixed 2 (targetIntensityOf year)) ] /\
       Advice.requiredReductionPercent a = Some (VFixed 1 percent) /\
       Advice.targetIntensity a
       = Some (VFixed 2 (toFixed 2 (targetIntensityOf year))) /\
       Advice.requiredReduction a = Some (VFixed 2 reduction) /\
       Qabs (reduction - (ghgIntensity vessel - targetIntensityOf year))
       < 1 # 100).
Proof.
  intro Hy.
  pose proof (calculateVesselCompliance_ok vessel year Hy) as Er.
  set (r := vesselResult vessel year (numberOf (prop complianceTargets year)))
    in *.
  exists r. unfold suggestImprovements. rewrite Er. cbn [bind].
  destruct (status r) eqn:Es; cbn [Status_eqb].
  - eexists. split; [ reflexivity |]. split; [ reflexivity |].
    cbn [Advice.status Advice.suggestions Advice.requiredReduction
         Advice.requiredReductionPercent Advice.targetIntensity].
    split; [ reflexivity |].
    split; [ intros _; repeat split; reflexivity | discriminate ].
  - eexists. split; [ reflexivity |]. split; [ reflexivity |].
    cbn [Advice.status Advice.suggestions Advice.requiredReduction
         Advice.requiredReductionPercent Advice.targetIntensity].
    split; [ reflexivity |].
    split; [ discriminate |].
    intros _.
    match goal with
    | |- context [ Qle_bool ?p 5 ] => set (pct := p)
    end.
    destruct (Qle_bool pct 5); [| destruct (Qle_bool pct 15) ];
      eexists; exists (toFixed 1 pct);
      exists (toFixed 2 (ghgIntensity vessel - targetIntensityOf year));
      (split;
       [| split; [ reflexivity |]; split; [ reflexivity |];
          split; [ reflexivity |]; split; [ reflexivity |];
          apply toFixed_within_2 ]); auto.
Qed.

Lemma suggestions_follow_status_witness :
  exists a,
    suggestImprovements pacificTrader 2025 = Ok a /\
    Advice.suggestions a = maintainAdvice.
Proof.
  destruct (suggestions_follow_status pacificTrader 2025 eq_refl)
    as (r & a & Er & Ea & _ & Hc & _).
  exists a. split; [ exact Ea |].
  apply Hc.
  rewrite (calculateVesselCompliance_ok pacificTrader 2025 eq_refl) in Er.
  injection Er as <-. reflexivity.
Defined.

(** A percentage of the intensity, compared without the division. *)
Lemma percent_le_iff (g ti c : Q) :
  0 < g ->
  ((g - ti) / g * 100 <= c <-> (100 - c) * g <= 100 * ti).
Proof.
  intro Hg.
  assert (E : (g - ti) / g * 100 * g == (g - ti) * 100) by (field; lra).
  rewrite <- (Qmult_le_r ((g - ti) / g * 100) c g Hg).
  rewrite E. split; intro H; lra.
Qed.

(** X11.  For a vessel with positive fuel consumption whose intensity is
    above the target of a valid year, the required reduction is between
    0 and 100 per cent of its intensity, the reported percentage is that
    value to one decimal, less than 0.1 away from it, and the tier is
    decided by the intensity alone: the operational tier while 95 % of
    the intensity is at most the target, the blending tier while 85 %
    is, the transition tier beyond; the target line carries the reported
    percentage. *)
Theorem suggestion_tier_by_intensity (vessel : Vessel) (year : Z) :
  0 < fuelConsumption vessel -> validYear year = true ->
  targetIntensityOf year < ghgIntensity vessel ->
  exists a percent reported,
    suggestImprovements vessel year = Ok a /\
    Advice.status a = non_compliant /\
    percent == (ghgIntensity vessel - targetIntensityOf year)
               / ghgIntensity vessel * 100 /\
    0 < percent < 100 /\
    Advice.requiredReductionPercent a = Some (VFixed 1 reported) /\
    Qabs (reported - percent) < 1 # 10 /\
    ((95 # 100) * ghgIntensity vessel <= targetIntensityOf year ->
     Advice.suggestions a
     = operationalTier
       ++ [ TargetLine reported (toFixed 2 (targetIntensityOf year)) ]) /\
    (targetIntensityOf year < (95 # 100) * ghgIntensity vessel ->
     (85 # 100) * ghgIntensity vessel <= targetIntensityOf year ->
     Advice.suggestions a
     = blendingTier
       ++ [ TargetLine reported (toFixed 2 (targetIntensityOf year)) ]) /\
    (targetIntensityOf year < (85 # 100) * ghgIntensity vessel ->
     Advice.suggestions a
     = transitionTier
       ++ [ TargetLine reported (toFixed 2 (targetIntensityOf year)) ]).
Proof.
  intros Hf Hy Habove.
  pose proof (targetIntensityOf_pos year Hy) as Hti.
  pose proof (calculateVesselCompliance_ok vessel year Hy) as Er.
  set (r := vesselResult vessel year (numberOf (prop complianceTargets year)))
    in *.
  assert (Es : status r = non_compliant).
  { unfold r. cbn [status vesselResult].
    apply status_non_compliant_iff.
    apply (complianceBalance_neg_iff _ vessel Hf). exact Habove. }
  set (g := ghgIntensity vessel) in *.
  set (ti := targetIntensityOf year) in *.
  assert (Hg : 0 < g) by lra.
  set (pct := (g - ti) / g * 100).
  pose proof (percent_le_iff g ti 5 Hg) as H5. fold pct in H5.
  pose proof (percent_le_iff g ti 15 Hg) as H15. fold pct in H15.
  pose proof (percent_le_iff g ti 0 Hg) as H0. fold pct in H0.
  pose proof (percent_le_iff g ti 100 Hg) as H100. fold pct in H100.
  unfold suggestImprovements. rewrite Er. cbn [bind]. rewrite Es.
  cbn [Status_eqb].
  change (referenceGHGIntensity * (1 - numberOf (prop complianceTargets year)))
    with ti.
  fold g. fold pct.
  eexists. exists pct. exists (toFixed 1 pct).
  split; [ reflexivity |].
  cbn [Advice.status Advice.suggestions Advice.requiredReductionPercent].
  split; [ reflexivity |].
  split; [ reflexivity |].
  split.
  { split.
    - apply Qnot_le_lt. intro H. apply H0 in H. lra.
    - apply Qnot_le_lt. intro H.
      assert (Hlt : ~ pct <= 100 -> False).
      { intro Hn. apply Hn. apply H100. lra. }
      destruct (Qlt_le_dec 100 pct) as [Hbig | Hsmall].
      + apply (Qlt_not_le _ _ Hbig). apply H100. lra.
      + assert (Eq100 : pct == 100) by lra.
        assert (Hle0 : (100 - 100) * g <= 100 * ti) by lra.
        assert (Hge : 100 <= pct) by lra.
        assert (Hrev : (g - ti) / g * 100 * g == (g - ti) * 100)
          by (field; lra).
        fold pct in Hrev. rewrite Eq100 in Hrev. lra. }
  split; [ reflexivity |].
  split; [ apply toFixed_within_1 |].
  split; [| split ].
  - intro H. assert (Hp : pct <= 5) by (apply H5; lra).
    apply Qle_bool_iff in Hp. rewrite Hp. reflexivity.
  - intros Hno Hyes.
    assert (Hp5 : Qle_bool pct 5 = false).
    { apply Qle_bool_false_iff. apply Qnot_le_lt. intro H. apply H5 in H. lra. }
    assert (Hp15 : pct <= 15) by (apply H15; lra).
    apply Qle_bool_iff in Hp15. rewrite Hp5, Hp15. reflexivity.
  - intro Hno.
    assert (Hp5 : Qle_bool pct 5 = false).
    { apply Qle_bool_false_iff. apply Qnot_le_lt. intro H. apply H5 in H. lra. }
    assert (Hp15 : Qle_bool pct 15 = false).
    { apply Qle_bool_false_iff. apply Qnot_le_lt. intro H. apply H15 in H. lra. }
    rewrite Hp5, Hp15. reflexivity.
Qed.

(** Med Princess in 2025: 6.08 % above, the blending tier. *)
Lemma suggestion_tier_by_intensity_witness :
  exists a,
    suggestImprovements medPrincess 2025 = Ok a /\
    Advice.status a = non_compliant /\
    exists reported,
      Advice.requiredReductionPercent a = Some (VFixed 1 reported) /\
      Advice.suggestions a
      = blendingTier
        ++ [ TargetLine reported (toFixed 2 (targetIntensityOf 2025)) ].
Proof.
  destruct (suggestion_tier_by_intensity medPrincess 2025)
    as (a & percent & reported & Ea & Es & _ & _ & Er & _ & _ & Hblend & _);
    [ reflexivity | reflexivity | reflexivity |].
  exists a. split; [ exact Ea |]. split; [ exact Es |].
  exists reported. split; [ exact Er |].
  apply Hblend; vm_compute; congruence.
Defined.

(** ** The pool: counts, signs, merging, order *)

Section PoolCounts.

Variable year : Z.
Hypothesis year_valid : validYear year = true.

Let R (v : Vessel) : VesselResult :=
  vesselResult v year (numberOf (prop complianceTargets year)).

Lemma count_compliant (fleet : list Vessel) (acc : Totals.t) :
  Totals.compliantCount (fold_left (turn year) fleet acc)
  = (Totals.compliantCount acc
     + lengthOf (filter isCompliant (map R fleet)))%Z.
Proof.
  revert acc. induction fleet as [| v vs IH]; intro acc; cbn [fold_left map filter].
  - unfold lengthOf. simpl. lia.
  - rewrite IH. unfold turn, accumulate, isCompliant, R.
    cbn [Totals.compliantCount].
    destruct (Status_eqb (status (vesselResult v year _)) compliant);
      unfold lengthOf; cbn [List.length]; lia.
Qed.

Lemma count_non_compliant (fleet : list Vessel) (acc : Totals.t) :
  Totals.nonCompliantCount (fold_left (turn year) fleet acc)
  = (Totals.nonCompliantCount acc
     + lengthOf (filter (fun r => negb (isCompliant r)) (map R fleet)))%Z.
Proof.
  revert acc. induction fleet as [| v vs IH]; intro acc; cbn [fold_left map filter].
  - unfold lengthOf. simpl. lia.
  - rewrite IH. unfold turn, accumulate, isCompliant, R.
    cbn [Totals.nonCompliantCount].
    destruct (Status_eqb (status (vesselResult v year _)) compliant);
      unfold lengthOf; cbn [negb List.length]; lia.
Qed.

Lemma total_potentialPenalty_decimals (fleet : list Vessel) :
  decimals 2 (Totals.totalPotentialPenalty
                (fold_left (turn year) fleet Totals.zero)).
Proof.
  destruct (decimals_Qsum 2
              (fun v => toFixed 2 (Calc.potentialPenalty
                                     (penaltyRateFor year)
                                     (Calc.targetIntensity
                                        (numberOf (prop complianceTargets year)))
                                     v))
              fleet) as [n Hn].
  - intro v. apply decimals_toFixed.
  - exists n. now rewrite total_potentialPenalty.
Qed.

End PoolCounts.

Lemma filter_split_length {A : Type} (f : A -> bool) (l : list A) :
  (lengthOf (filter f l) + lengthOf (filter (fun a => negb (f a)) l))%Z
  = lengthOf l.
Proof.
  unfold lengthOf. induction l as [| a l IH]; cbn [filter];
    [ reflexivity |].
  destruct (f a); cbn [negb List.length]; lia.
Qed.

Lemma lengthOf_filter_le {A : Type} (f : A -> bool) (l : list A) :
  (0 <= lengthOf (filter f l) <= lengthOf l)%Z.
Proof.
  pose proof (filter_split_length f l). unfold lengthOf in *. lia.
Qed.

Lemma Qsum_nonneg {A : Type} (g : A -> Q) (l : list A) :
  (forall a, 0 <= g a) -> 0 <= Qsum (map g l).
Proof.
  intro Hg. induction l as [| a l IH]; simpl; [ lra |].
  pose proof (Hg a). lra.
Qed.

Lemma Qsum_app (l l' : list Q) : Qsum (l ++ l') == Qsum l + Qsum l'.
Proof.
  induction l as [| x l IH]; simpl; [ ring |]. rewrite IH. ring.
Qed.

Lemma Qsum_le {A : Type} (g h : A -> Q) (l : list A) :
  (forall a, In a l -> g a <= h a) -> Qsum (map g l) <= Qsum (map h l).
Proof.
  induction l as [| a l IH]; intro H; simpl; [ lra |].
  pose proof (H a (or_introl eq_refl)).
  pose proof (IH (fun b Hb => H b (or_intror Hb))). lra.
Qed.

Lemma map_spread_results (year : Z) (target : Q) (fleet : list Vessel) :
  map spread (map (fun v => vesselResult v year target) fleet) = fleet.
Proof.
  induction fleet as [| v vs IH]; simpl; [ reflexivity |]. now rewrite IH.
Qed.

(** X12.  For a pool that is not empty and a valid year the results come
    in the order of the vessels, one for each; the number of compliant
    vessels of the summary is the number of results with status
    compliant, the two counts add up to the number of vessels, and the
    compliance rate lies between 0 and 100. *)
Theorem pool_counts (fleet : list Vessel) (year : Z) :
  fleet <> [] -> validYear year = true ->
  exists p,
    calculatePoolCompliance fleet year = Ok p /\
    map spread (vessels p) = fleet /\
    Summary.totalVessels (summary p) = lengthOf fleet /\
    Summary.compliantVessels (summary p)
    = lengthOf (filter isCompliant (vessels p)) /\
    Summary.nonCompliantVessels (summary p)
    = lengthOf (filter (fun r => negb (isCompliant r)) (vessels p)) /\
    (Summary.compliantVessels (summary p)
     + Summary.nonCompliantVessels (summary p))%Z
    = Summary.totalVessels (summary p) /\
    0 <= Summary.complianceRate (summary p) <= 100.
Proof.
  intros Hne Hy.
  destruct fleet as [| v vs]; [ congruence |].
  set (l := v :: vs) in *.
  eexists. split; [ apply (calculatePoolCompliance_ok year Hy) |].
  fold l.
  cbn [vessels summary poolSummary Summary.totalVessels
       Summary.compliantVessels Summary.nonCompliantVessels
       Summary.complianceRate].
  rewrite (count_compliant year l), (count_non_compliant year l).
  cbn [Totals.zero Totals.compliantCount Totals.nonCompliantCount].
  set (results := map (fun v0 => vesselResult v0 year
                                   (numberOf (prop complianceTargets year))) l).
  assert (Hlen : lengthOf results = lengthOf l).
  { unfold lengthOf, results. now rewrite length_map. }
  pose proof (filter_split_length isCompliant results) as Hsplit.
  pose proof (lengthOf_filter_le isCompliant results) as Hle.
  split; [ apply map_spread_results |].
  split; [ reflexivity |].
  split; [ rewrite Z.add_0_l; reflexivity |].
  split; [ rewrite Z.add_0_l; reflexivity |].
  split; [ lia |].
  rewrite Z.add_0_l.
  set (c := lengthOf (filter isCompliant results)) in *.
  assert (Hn : (0 < lengthOf l)%Z) by (unfold lengthOf, l; simpl; lia).
  assert (Hratio : 0 <= inject_Z c / inject_Z (lengthOf l) * 100 <= 100).
  { assert (Hnq : 0 < inject_Z (lengthOf l)).
    { replace 0 with (inject_Z 0) by reflexivity. now rewrite <- Zlt_Qlt. }
    assert (Hcq : 0 <= inject_Z c).
    { replace 0 with (inject_Z 0) by reflexivity. rewrite <- Zle_Qle. lia. }
    assert (Hcn : inject_Z c <= inject_Z (lengthOf l)).
    { rewrite <- Zle_Qle. lia. }
    pose proof (ratio_nonneg _ Hnq _ Hcq) as H0.
    assert (H1 : inject_Z c / inject_Z (lengthOf l) <= 1).
    { apply Qle_shift_div_r; [ exact Hnq | lra ]. }
    lra. }
  split.
  - apply toFixed_nonneg. lra.
  - apply Qle_trans with (toFixed 1 100); [ apply toFixed_mono; lra |].
    apply Qle_lteq. right. exact (toFixed_Z 1 100).
Qed.

Lemma pool_counts_witness :
  exists p,
    calculatePoolCompliance poolB 2025 = Ok p /\
    Summary.compliantVessels (summary p) = 1%Z /\
    Summary.nonCompliantVessels (summary p) = 1%Z /\
    Summary.complianceRate (summary p) <= 100.
Proof.
  destruct (pool_counts poolB 2025)
    as (p & Ep & _ & _ & Hc & Hn & _ & _ & Hrate);
    [ discriminate | reflexivity |].
  exists p. split; [ exact Ep |].
  assert (Ev : vessels p
               = map (fun v => vesselResult v 2025 (2 # 100)) poolB).
  { unfold poolB in Ep.
    rewrite (calculatePoolCompliance_ok 2025 eq_refl) in Ep.
    injection Ep as <-. reflexivity. }
  rewrite Ev in Hc, Hn.
  split; [ rewrite Hc; reflexivity |].
  split; [ rewrite Hn; reflexivity | exact Hrate ].
Defined.

Lemma potentialPenalty_nonneg (ti : Q) (vessel : Vessel) :
  0 <= Calc.potentialPenalty 640 ti vessel.
Proof.
  rewrite potentialPenalty_as_max.
  unfold Qdiv. apply Qmult_le_0_compat; [| vm_compute; discriminate ].
  apply Qmult_le_0_compat; [ apply Q.le_max_l | vm_compute; discriminate ].
Qed.

Lemma penaltyOf_nonneg (year : Z) (v : Vessel) : 0 <= penaltyOf year v.
Proof.
  unfold penaltyOf. rewrite penaltyRateFor_640.
  apply toFixed_nonneg, potentialPenalty_nonneg.
Qed.

Lemma deficitOf_nonneg (year : Z) (v : Vessel) : 0 <= deficitOf year v.
Proof.
  unfold deficitOf. destruct (Qlt_bool _ 0); [ apply Qabs_nonneg | lra ].
Qed.

Lemma surplusOf_nonneg (year : Z) (v : Vessel) : 0 <= surplusOf year v.
Proof.
  unfold surplusOf. by_cases_on (Qlt_bool 0 (balanceOf year v)); lra.
Qed.

(** The fields of the summary that are exact sums over the vessels. *)
Lemma pool_fields_as_sums (fleet : list Vessel) (year : Z) :
  fleet <> [] -> validYear year = true ->
  exists p,
    calculatePoolCompliance fleet year = Ok p /\
    vessels p = map (fun v => vesselResult v year (targetOf year)) fleet /\
    summary p = poolSummary (lengthOf fleet) year (targetOf year)
                            (fold_left (turn year) fleet Totals.zero) /\
    Summary.poolComplianceBalance (summary p)
    == Qsum (map (balanceOf year) fleet) /\
    Summary.poolComplianceDeficit (summary p)
    == Qsum (map (deficitOf year) fleet) /\
    Summary.poolComplianceSurplus (summary p)
    == Qsum (map (surplusOf year) fleet) /\
    Summary.totalPotentialPenalty (summary p)
    == Qsum (map (penaltyOf year) fleet).
Proof.
  intros Hne Hy.
  destruct fleet as [| v vs]; [ congruence |].
  set (l := v :: vs) in *.
  eexists. split; [ apply (calculatePoolCompliance_ok year Hy) |].
  fold l.
  split; [ reflexivity |].
  split; [ reflexivity |].
  cbn [summary poolSummary Summary.poolComplianceBalance
       Summary.poolComplianceDeficit Summary.poolComplianceSurplus
       Summary.totalPotentialPenalty].
  rewrite (toFixed_decimals 2 _ (total_complianceBalance_decimals year l)).
  rewrite (toFixed_decimals 2 _ (total_deficit_decimals year l)).
  rewrite (toFixed_decimals 2 _ (total_surplus_decimals year l)).
  rewrite (toFixed_decimals 2 _ (total_potentialPenalty_decimals year l)).
  split; [ apply (total_complianceBalance year l) |].
  split; [ apply (total_deficit year l) |].
  split; [ apply (total_surplus year l) |].
  apply (total_potentialPenalty year l).
Qed.

(** X13.  For a pool that is not empty and a valid year: a pool
    reported compliant has a returned balance that is not negative and a
    pool penalty of zero, and a pool with a positive returned balance is
    reported compliant; both penalties, the deficit, the surplus and the
    two net energies are never negative, and at most one of the two net
    energies is not zero. *)
Theorem pool_signs (fleet : list Vessel) (year : Z) :
  fleet <> [] -> validYear year = true ->
  exists p,
    calculatePoolCompliance fleet year = Ok p /\
    (Summary.poolCompliant (summary p) = true ->
     0 <= Summary.poolComplianceBalance (summary p)) /\
    (0 < Summary.poolComplianceBalance (summary p) ->
     Summary.poolCompliant (summary p) = true) /\
    (Summary.poolCompliant (summary p) = true ->
     Summary.poolPotentialPenalty (summary p) == 0) /\
    0 <= Summary.poolPotentialPenalty (summary p) /\
    0 <= Summary.totalPotentialPenalty (summary p) /\
    0 <= Summary.poolComplianceDeficit (summary p) /\
    0 <= Summary.poolComplianceSurplus (summary p) /\
    0 <= Summary.netEnergyDeficit (summary p) /\
    0 <= Summary.netEnergySurplus (summary p) /\
    (Summary.netEnergyDeficit (summary p) == 0
     \/ Summary.netEnergySurplus (summary p) == 0).
Proof.
  intros Hne Hy.
  destruct (pool_fields_as_sums fleet year Hne Hy)
    as (p & Ep & _ & Es & Hb & Hd & Hs & Hp).
  exists p. split; [ exact Ep |].
  rewrite Hd, Hs, Hp.
  set (acc := fold_left (turn year) fleet Totals.zero) in *.
  assert (Ebal : Summary.poolComplianceBalance (summary p)
                 == Totals.totalComplianceBalance acc).
  { rewrite Es. cbn [poolSummary Summary.poolComplianceBalance].
    apply toFixed_decimals, total_complianceBalance_decimals. }
  rewrite Ebal. rewrite Es.
  cbn [poolSummary Summary.poolCompliant Summary.poolPotentialPenalty
       Summary.netEnergyDeficit Summary.netEnergySurplus].
  unfold Pool.poolCompliant, Pool.netEnergyDeficit, Pool.netEnergySurplus.
  set (total := Totals.totalComplianceBalance acc).
  set (x := Totals.totalEnergyDeficit acc - Totals.totalEnergySurplus acc).
  assert (Ex : Totals.totalEnergySurplus acc - Totals.totalEnergyDeficit acc
               == - x) by (unfold x; ring).
  rewrite Ex.
  assert (Hscale : forall y, 0 <= y -> 0 <= toFixed 2 (y / 1000000)).
  { intros y Hy0. apply toFixed_nonneg.
    apply Qle_shift_div_l; [ reflexivity | lra ]. }
  assert (Hzero : toFixed 2 (0 / 1000000) == 0) by (exact (toFixed_0 2)).
  split; [ apply Qle_bool_iff |].
  split; [ intro Hpos; apply Qle_bool_iff; lra |].
  split.
  { intro Hc. apply Qle_bool_iff in Hc.
    assert (Hn : Qlt_bool total 0 = false) by (now apply Qlt_bool_false_iff).
    rewrite Hn. reflexivity. }
  split.
  { rewrite penaltyRateFor_640.
    destruct (Qlt_bool total 0); [| lra ].
    apply toFixed_nonneg.
    unfold Qdiv. apply Qmult_le_0_compat; [| vm_compute; discriminate ].
    apply Qmult_le_0_compat; [ apply Qabs_nonneg | vm_compute; discriminate ]. }
  split; [ apply Qsum_nonneg, penaltyOf_nonneg |].
  split; [ apply Qsum_nonneg, deficitOf_nonneg |].
  split; [ apply Qsum_nonneg, surplusOf_nonneg |].
  split; [ apply Hscale, Q.le_max_l |].
  split; [ apply Hscale, Q.le_max_l |].
  destruct (Qlt_le_dec 0 x) as [Hx | Hx].
  - right. rewrite Q.max_l by lra. exact Hzero.
  - left. rewrite Q.max_l by lra. exact Hzero.
Qed.

Lemma pool_signs_witness :
  exists p,
    calculatePoolCompliance poolB 2025 = Ok p /\
    Summary.poolCompliant (summary p) = false /\
    0 <= Summary.poolPotentialPenalty (summary p).
Proof.
  destruct (pool_signs poolB 2025)
    as (p & Ep & _ & _ & _ & Hpen & _); [ discriminate | reflexivity |].
  exists p. split; [ exact Ep |].
  split; [| exact Hpen ].
  unfold poolB in Ep.
  rewrite (calculatePoolCompliance_ok 2025 eq_refl) in Ep.
  injection Ep as <-. reflexivity.
Defined.

Lemma Qsum_map_app {A : Type} (g : A -> Q) (l l' : list A) :
  Qsum (map g (l ++ l')) == Qsum (map g l) + Qsum (map g l').
Proof. rewrite map_app. apply Qsum_app. Qed.

Lemma lengthOf_app {A : Type} (l l' : list A) :
  lengthOf (l ++ l') = (lengthOf l + lengthOf l')%Z.
Proof. unfold lengthOf. rewrite length_app. lia. Qed.

Lemma app_not_nil {A : Type} (l l' : list A) : l <> [] -> l ++ l' <> [].
Proof. destruct l; [ congruence | discriminate ]. Qed.

(** The counts of the summary, as lengths. *)
Lemma pool_count_fields (fleet : list Vessel) (year : Z) :
  fleet <> [] -> validYear year = true ->
  exists p,
    calculatePoolCompliance fleet year = Ok p /\
    Summary.totalVessels (summary p) = lengthOf fleet /\
    Summary.compliantVessels (summary p)
    = lengthOf (filter isCompliant (vessels p)) /\
    Summary.nonCompliantVessels (summary p)
    = lengthOf (filter (fun r => negb (isCompliant r)) (vessels p)).
Proof.
  intros Hne Hy.
  destruct fleet as [| v vs]; [ congruence |].
  set (l := v :: vs) in *.
  eexists. split; [ apply (calculatePoolCompliance_ok year Hy) |].
  fold l.
  cbn [vessels summary poolSummary Summary.totalVessels
       Summary.compliantVessels Summary.nonCompliantVessels].
  rewrite (count_compliant year l), (count_non_compliant year l).
  cbn [Totals.zero Totals.compliantCount Totals.nonCompliantCount].
  rewrite !Z.add_0_l. repeat split; reflexivity.
Qed.

(** X14.  Merging two pools that are not empty: the results of the merged
    pool are those of the first followed by those of the second, and its
    vessel counts, its balance, its deficit, its surplus and its total
    penalty are the sums of those of the two pools. *)
Theorem pool_merge (a b : list Vessel) (year : Z) :
  a <> [] -> b <> [] -> validYear year = true ->
  exists pa pb pab,
    calculatePoolCompliance a year = Ok pa /\
    calculatePoolCompliance b year = Ok pb /\
    calculatePoolCompliance (a ++ b) year = Ok pab /\
    vessels pab = vessels pa ++ vessels pb /\
    Summary.totalVessels (summary pab)
    = (Summary.totalVessels (summary pa)
       + Summary.totalVessels (summary pb))%Z /\
    Summary.compliantVessels (summary pab)
    = (Summary.compliantVessels (summary pa)
       + Summary.compliantVessels (summary pb))%Z /\
    Summary.nonCompliantVessels (summary pab)
    = (Summary.nonCompliantVessels (summary pa)
       + Summary.nonCompliantVessels (summary pb))%Z /\
    Summary.poolComplianceBalance (summary pab)
    == Summary.poolComplianceBalance (summary pa)
       + Summary.poolComplianceBalance (summary pb) /\
    Summary.poolComplianceDeficit (summary pab)
    == Summary.poolComplianceDeficit (summary pa)
       + Summary.poolComplianceDeficit (summary pb) /\
    Summary.poolComplianceSurplus (summary pab)
    == Summary.poolComplianceSurplus (summary pa)
       + Summary.poolComplianceSurplus (summary pb) /\
    Summary.totalPotentialPenalty (summary pab)
    == Summary.totalPotentialPenalty (summary pa)
       + Summary.totalPotentialPenalty (summary pb).
Proof.
  intros Ha Hb Hy.
  destruct (pool_fields_as_sums a year Ha Hy)
    as (pa & Epa & Eva & _ & Hba & Hda & Hsa & Hpa).
  destruct (pool_fields_as_sums b year Hb Hy)
    as (pb & Epb & Evb & _ & Hbb & Hdb & Hsb & Hpb).
  destruct (pool_fields_as_sums (a ++ b) year (app_not_nil a b Ha) Hy)
    as (pab & Epab & Evab & _ & Hbab & Hdab & Hsab & Hpab).
  destruct (pool_count_fields a year Ha Hy) as (pa' & Epa' & Hta & Hca & Hna).
  destruct (pool_count_fields b year Hb Hy) as (pb' & Epb' & Htb & Hcb & Hnb).
  destruct (pool_count_fields (a ++ b) year (app_not_nil a b Ha) Hy)
    as (pab' & Epab' & Htab & Hcab & Hnab).
  assert (pa' = pa) by congruence. assert (pb' = pb) by congruence.
  assert (pab' = pab) by congruence. subst pa' pb' pab'.
  exists pa, pb, pab.
  split; [ exact Epa |]. split; [ exact Epb |]. split; [ exact Epab |].
  split; [ rewrite Evab, Eva, Evb; apply map_app |].
  split; [ rewrite Htab, Hta, Htb; apply lengthOf_app |].
  split.
  { rewrite Hcab, Hca, Hcb, Evab, Eva, Evb, map_app, filter_app.
    apply lengthOf_app. }
  split.
  { rewrite Hnab, Hna, Hnb, Evab, Eva, Evb, map_app, filter_app.
    apply lengthOf_app. }
  split; [ rewrite Hbab, Hba, Hbb; apply Qsum_map_app |].
  split; [ rewrite Hdab, Hda, Hdb; apply Qsum_map_app |].
  split; [ rewrite Hsab, Hsa, Hsb; apply Qsum_map_app |].
  rewrite Hpab, Hpa, Hpb. apply Qsum_map_app.
Qed.

(** Pool B and the two clean vessels, merged in 2025. *)
Lemma pool_merge_witness :
  exists pa pb pab,
    calculatePoolCompliance poolB 2025 = Ok pa /\
    calculatePoolCompliance cleanFleet 2025 = Ok pb /\
    calculatePoolCompliance (poolB ++ cleanFleet) 2025 = Ok pab /\
    Summary.poolComplianceBalance (summary pab)
    == Summary.poolComplianceBalance (summary pa)
       + Summary.poolComplianceBalance (summary pb).
Proof.
  destruct (pool_merge poolB cleanFleet 2025)
    as (pa & pb & pab & Ea & Eb & Eab & _ & _ & _ & _ & Hbal & _);
    [ discriminate | discriminate | reflexivity |].
  exists pa, pb, pab. repeat split; assumption.
Defined.

(** ** The order of the vessels *)

Lemma Qsum_perm {A : Type} (g : A -> Q) (l l' : list A) :
  Permutation l l' -> Qsum (map g l) == Qsum (map g l').
Proof.
  intro H. induction H as [| x l l' H IH | x y l | l l' l'' H1 IH1 H2 IH2];
    simpl.
  - reflexivity.
  - rewrite IH. reflexivity.
  - ring.
  - rewrite IH1. exact IH2.
Qed.

Lemma filter_length_perm {A : Type} (f : A -> bool) (l l' : list A) :
  Permutation l l' ->
  lengthOf (filter f l) = lengthOf (filter f l').
Proof.
  intro H. unfold lengthOf.
  induction H as [| x l l' H IH | x y l | l l' l'' H1 IH1 H2 IH2];
    cbn [filter].
  - reflexivity.
  - destruct (f x); cbn [List.length]; lia.
  - destruct (f x), (f y); reflexivity.
  - lia.
Qed.

(** The totals after the loop do not depend on the order. *)
Lemma totals_perm (fleet fleet' : list Vessel) (year : Z) :
  Permutation fleet fleet' ->
  sameTotals (fold_left (turn year) fleet Totals.zero)
             (fold_left (turn year) fleet' Totals.zero).
Proof.
  intro H. unfold sameTotals.
  rewrite !(total_energyConsumption year), !(total_emissions year),
    !(total_energyDeficit year), !(total_energySurplus year),
    !(total_complianceBalance year), !(total_potentialPenalty year),
    !(total_deficit year), !(total_surplus year),
    !(count_compliant year), !(count_non_compliant year).
  pose proof (Permutation_map
                (fun v => vesselResult v year
                            (numberOf (prop complianceTargets year))) H) as Hr.
  repeat split; try (apply Qsum_perm; exact H);
    f_equal; apply filter_length_perm; exact Hr.
Qed.

(** The summary is a function of the numbers of the totals. *)
Lemma poolSummary_same (count year : Z) (target : Q) (acc acc' : Totals.t) :
  sameTotals acc acc' ->
  sameCountsAndSums (poolSummary count year target acc)
                    (poolSummary count year target acc') /\
  Summary.poolCompliant (poolSummary count year target acc)
  = Summary.poolCompliant (poolSummary count year target acc').
Proof.
  intros (Hec & Hem & Hed & Hes & Hcb & Hpp & Hcc & Hnc & Hdv & Hsv).
  unfold sameCountsAndSums, poolSummary.
  cbn [Summary.totalVessels Summary.compliantVessels
       Summary.nonCompliantVessels Summary.complianceRate
       Summary.poolEnergyDeficit Summary.poolEnergySurplus
       Summary.netEnergyDeficit Summary.netEnergySurplus
       Summary.poolComplianceBalance Summary.poolComplianceDeficit
       Summary.poolComplianceSurplus Summary.poolTargetIntensity
       Summary.poolCompliant Summary.totalPotentialPenalty
       Summary.complianceYear].
  unfold Pool.poolCompliant, Pool.netEnergyDeficit, Pool.netEnergySurplus.
  rewrite Hcc, Hnc.
  assert (Hle : Qle_bool 0 (Totals.totalComplianceBalance acc)
                = Qle_bool 0 (Totals.totalComplianceBalance acc')).
  { now rewrite Hcb. }
  rewrite Hle.
  repeat split; try reflexivity;
    now rewrite ?Hed, ?Hes, ?Hcb, ?Hpp, ?Hdv, ?Hsv.
Qed.

(** X15.  The counts and the sums of returned values do not depend on
    the order of the vessels: two lists with the same vessels in
    different orders give results that are a rearrangement of each
    other, and summaries with the same vessel counts, compliance rate,
    pool energies, net energies, balance, deficit, surplus, target
    intensity and total penalty; unless the returned balance is zero,
    the two pools are both compliant or both not. *)
Theorem pool_order_independent (fleet fleet' : list Vessel) (year : Z) :
  Permutation fleet fleet' -> validYear year = true ->
  exists p p',
    calculatePoolCompliance fleet year = Ok p /\
    calculatePoolCompliance fleet' year = Ok p' /\
    Permutation (vessels p) (vessels p') /\
    sameCountsAndSums (summary p) (summary p') /\
    (~ Summary.poolComplianceBalance (summary p) == 0 ->
     Summary.poolCompliant (summary p) = Summary.poolCompliant (summary p')).
Proof.
  intros Hperm Hy.
  destruct fleet as [| v vs]; destruct fleet' as [| v' vs'].
  - exists (getEmptyPoolResult year), (getEmptyPoolResult year).
    split; [ reflexivity |]. split; [ reflexivity |].
    split; [ constructor |].
    split; [| reflexivity ].
    unfold sameCountsAndSums. repeat split; reflexivity.
  - exfalso. exact (Permutation_nil_cons Hperm).
  - exfalso. apply Permutation_sym in Hperm. exact (Permutation_nil_cons Hperm).
  - set (l := v :: vs) in *. set (l' := v' :: vs') in *.
    eexists. eexists.
    split; [ apply (calculatePoolCompliance_ok year Hy) |].
    split; [ apply (calculatePoolCompliance_ok year Hy) |].
    fold l l'. cbn [summary vessels].
    split; [ now apply Permutation_map |].
    assert (Hlen : lengthOf l = lengthOf l').
    { unfold lengthOf. now rewrite (Permutation_length Hperm). }
    rewrite Hlen.
    destruct (poolSummary_same (lengthOf l') year
                               (numberOf (prop complianceTargets year))
                               _ _ (totals_perm l l' year Hperm))
      as [Hsame Hflag].
    split; [ exact Hsame | intros _; exact Hflag ].
Qed.

Lemma pool_order_independent_witness :
  exists p p',
    calculatePoolCompliance [medPrincess; pacificTrader] 2025 = Ok p /\
    calculatePoolCompliance [pacificTrader; medPrincess] 2025 = Ok p' /\
    sameCountsAndSums (summary p) (summary p') /\
    Summary.poolCompliant (summary p) = Summary.poolCompliant (summary p').
Proof.
  destruct (pool_order_independent [medPrincess; pacificTrader]
                                   [pacificTrader; medPrincess] 2025)
    as (p & p' & E & E' & _ & Hs & Hflag).
  - apply perm_swap.
  - reflexivity.
  - exists p, p'. split; [ exact E |]. split; [ exact E' |].
    split; [ exact Hs |].
    apply Hflag.
    rewrite (calculatePoolCompliance_ok 2025 eq_refl) in E.
    injection E as <-. vm_compute. discriminate.
Defined.

(** ** Pools of one kind *)

Lemma Qsum_zero {A : Type} (g : A -> Q) (l : list A) :
  (forall a, In a l -> g a == 0) -> Qsum (map g l) == 0.
Proof.
  induction l as [| a l IH]; intro H; simpl; [ reflexivity |].
  rewrite (H a (or_introl eq_refl)), IH; [ ring |].
  intros b Hb. apply H. now right.
Qed.

Lemma filter_all {A : Type} (f : A -> bool) (l : list A) :
  (forall a, In a l -> f a = true) -> filter f l = l.
Proof.
  induction l as [| a l IH]; intro H; cbn [filter]; [ reflexivity |].
  rewrite (H a (or_introl eq_refl)), IH; [ reflexivity |].
  intros b Hb. apply H. now right.
Qed.

Lemma filter_none {A : Type} (f : A -> bool) (l : list A) :
  (forall a, In a l -> f a = false) -> filter f l = [].
Proof.
  induction l as [| a l IH]; intro H; cbn [filter]; [ reflexivity |].
  rewrite (H a (or_introl eq_refl)), IH; [ reflexivity |].
  intros b Hb. apply H. now right.
Qed.

(** The fuel-weighted mean of intensities that are all at most [t] is at
    most [t]; of intensities all above [t] it is above [t]. *)
Lemma weighted_sums_le (t : Q) (fleet : list Vessel) :
  Forall (fun v => 0 < fuelConsumption v /\ ghgIntensity v <= t) fleet ->
  Qsum (map (fun v => fuelConsumption v * ghgIntensity v) fleet)
  <= t * Qsum (map fuelConsumption fleet) /\
  0 <= Qsum (map fuelConsumption fleet).
Proof.
  intro H. induction H as [| v vs [Hf Hg] _ [IH1 IH2]]; simpl.
  - split; lra.
  - assert (Hm : fuelConsumption v * ghgIntensity v <= fuelConsumption v * t).
    { rewrite !(Qmult_comm (fuelConsumption v)).
      apply Qmult_le_compat_r; lra. }
    split; lra.
Qed.

Lemma weighted_sums_gt (t : Q) (fleet : list Vessel) :
  fleet <> [] ->
  Forall (fun v => 0 < fuelConsumption v /\ t < ghgIntensity v) fleet ->
  t * Qsum (map fuelConsumption fleet)
  < Qsum (map (fun v => fuelConsumption v * ghgIntensity v) fleet) /\
  0 < Qsum (map fuelConsumption fleet).
Proof.
  intros Hne H. induction H as [| v vs [Hf Hg] Hrest IH]; [ congruence |].
  simpl.
  assert (Hm : fuelConsumption v * t < fuelConsumption v * ghgIntensity v).
  { rewrite !(Qmult_comm (fuelConsumption v)).
    apply Qmult_lt_compat_r; lra. }
  destruct vs as [| w ws].
  - simpl. split; lra.
  - destruct IH as [IH1 IH2]; [ discriminate |]. split; lra.
Qed.

Lemma fuel_sum_pos (fleet : list Vessel) :
  fleet <> [] ->
  Forall (fun v => 0 < fuelConsumption v) fleet ->
  0 < Qsum (map fuelConsumption fleet).
Proof.
  intros Hne H. induction H as [| v vs Hf Hrest IH]; [ congruence |].
  simpl. destruct vs as [| w ws]; [ simpl; lra |].
  pose proof (IH ltac:(discriminate)). lra.
Qed.

(** The pool is reported compliant exactly when the sum of the returned
    balances is not negative. *)
Lemma poolCompliant_iff (fleet : list Vessel) (year : Z) (p : PoolResult) :
  fleet <> [] -> validYear year = true ->
  calculatePoolCompliance fleet year = Ok p ->
  (Summary.poolCompliant (summary p) = true
   <-> 0 <= Qsum (map (balanceOf year) fleet)).
Proof.
  intros Hne Hy Ep.
  destruct fleet as [| v vs]; [ congruence |].
  rewrite (calculatePoolCompliance_ok year Hy) in Ep. injection Ep as <-.
  set (l := v :: vs) in *.
  cbn [summary poolSummary Summary.poolCompliant].
  unfold Pool.poolCompliant. rewrite Qle_bool_iff.
  change (fold_left (turn year) vs (turn year Totals.zero v))
    with (fold_left (turn year) l Totals.zero).
  rewrite (total_complianceBalance year l). reflexivity.
Qed.

(** X16.  The pool of one vessel agrees with the vessel: its balance and
    its total penalty are the returned balance and penalty of the
    vessel, it is compliant exactly when that balance is not negative,
    and when the vessel has fuel consumption its average intensity is
    the intensity of the vessel to two decimals, less than 0.01 away
    from it, and its score the score of the vessel to one decimal, less
    than 0.1 away from it. *)
Theorem pool_of_one_vessel (vessel : Vessel) (year : Z) :
  validYear year = true ->
  exists p r,
    calculatePoolCompliance [vessel] year = Ok p /\
    calculateVesselCompliance vessel year = Ok r /\
    vessels p = [r] /\
    Summary.poolComplianceBalance (summary p) == complianceBalance r /\
    Summary.totalPotentialPenalty (summary p) == potentialPenalty r /\
    (Summary.poolCompliant (summary p) = true <-> 0 <= complianceBalance r) /\
    (~ fuelConsumption vessel == 0 ->
     Qabs (Summary.poolAverageIntensity (summary p) - ghgIntensity vessel)
     < 1 # 100 /\
     Qabs (Summary.poolComplianceScore (summary p) - complianceScore r)
     < 1 # 10).
Proof.
  intro Hy.
  destruct (pool_fields_as_sums [vessel] year ltac:(discriminate) Hy)
    as (p & Ep & Ev & Es & Hb & _ & _ & Hp).
  exists p. eexists.
  split; [ exact Ep |].
  split; [ apply (calculateVesselCompliance_ok vessel year Hy) |].
  split; [ exact Ev |].
  cbn [complianceBalance potentialPenalty complianceScore vesselResult].
  change (Calc.targetIntensity (numberOf (prop complianceTargets year)))
    with (targetIntensityOf year).
  fold (balanceOf year vessel). fold (penaltyOf year vessel).
  split; [ rewrite Hb; simpl; ring |].
  split; [ rewrite Hp; simpl; ring |].
  split.
  { rewrite (poolCompliant_iff [vessel] year p ltac:(discriminate) Hy Ep).
    simpl. split; intro; lra. }
  intro Hf.
  assert (Eavg : Pool.poolAverageIntensity
                   (fold_left (turn year) [vessel] Totals.zero)
                 == ghgIntensity vessel).
  { rewrite (poolAverageIntensity_weighted [vessel] year Hy).
    unfold weightedMean. simpl. field. lra. }
  rewrite Es.
  cbn [poolSummary Summary.poolAverageIntensity Summary.poolComplianceScore].
  unfold Pool.poolComplianceScore.
  rewrite Eavg. split; [ apply toFixed_within_2 | apply toFixed_within_1 ].
Qed.

Lemma pool_of_one_vessel_witness :
  exists p r,
    calculatePoolCompliance [heavyEmitter] 2031 = Ok p /\
    calculateVesselCompliance heavyEmitter 2031 = Ok r /\
    Summary.totalPotentialPenalty (summary p) == potentialPenalty r.
Proof.
  destruct (pool_of_one_vessel heavyEmitter 2031 eq_refl)
    as (p & r & Ep & Er & _ & _ & Hpen & _).
  exists p, r. repeat split; assumption.
Defined.

Lemma balance_nonneg_at_or_below (year : Z) (v : Vessel) :
  0 < fuelConsumption v -> ghgIntensity v <= targetIntensityOf year ->
  0 <= Calc.complianceBalance (targetIntensityOf year) v.
Proof.
  intros Hf Hg. apply Qnot_lt_le. intro Hneg.
  apply (complianceBalance_neg_iff _ v Hf) in Hneg. lra.
Qed.

(** X17.  A pool, not empty, of vessels with positive fuel consumption
    whose intensities are all at most the target of a valid year: every
    vessel counts as compliant, the rate is 100, the pool is compliant
    and scores 100, and the deficit and both penalties are zero. *)
Theorem pool_of_compliant_vessels (fleet : list Vessel) (year : Z) :
  fleet <> [] -> validYear year = true ->
  Forall (fun v => 0 < fuelConsumption v
                   /\ ghgIntensity v <= targetIntensityOf year) fleet ->
  exists p,
    calculatePoolCompliance fleet year = Ok p /\
    Summary.compliantVessels (summary p) = Summary.totalVessels (summary p) /\
    Summary.nonCompliantVessels (summary p) = 0%Z /\
    Summary.complianceRate (summary p) == 100 /\
    Summary.poolCompliant (summary p) = true /\
    Summary.poolComplianceScore (summary p) == 100 /\
    Summary.poolComplianceDeficit (summary p) == 0 /\
    Summary.poolPotentialPenalty (summary p) == 0 /\
    Summary.totalPotentialPenalty (summary p) == 0.
Proof.
  intros Hne Hy Hall.
  pose proof (targetIntensityOf_pos year Hy) as Hti.
  destruct (pool_fields_as_sums fleet year Hne Hy)
    as (p & Ep & Ev & Es & Hb & Hd & _ & Hp).
  destruct (pool_count_fields fleet year Hne Hy)
    as (p' & Ep' & Ht & Hc & Hn).
  assert (p' = p) by congruence. subst p'.
  exists p. split; [ exact Ep |].
  rewrite Forall_forall in Hall.
  assert (Hbal : forall v, In v fleet -> 0 <= balanceOf year v).
  { intros v Hv. destruct (Hall v Hv) as [Hf Hg].
    apply toFixed_nonneg. now apply balance_nonneg_at_or_below. }
  assert (Hstatus : forall r, In r (vessels p) -> isCompliant r = true).
  { intros r Hr. rewrite Ev in Hr. apply in_map_iff in Hr.
    destruct Hr as (v & <- & Hv). destruct (Hall v Hv) as [Hf Hg].
    unfold isCompliant. cbn [status vesselResult].
    apply Status_eqb_compliant, status_compliant_iff.
    now apply balance_nonneg_at_or_below. }
  assert (Hcount : Summary.compliantVessels (summary p)
                   = Summary.totalVessels (summary p)).
  { rewrite Hc, Ht, (filter_all _ _ Hstatus), Ev.
    unfold lengthOf. now rewrite length_map. }
  assert (Hcompliant : Summary.poolCompliant (summary p) = true).
  { apply (poolCompliant_iff fleet year p Hne Hy Ep).
    apply Qsum_le with (g := fun _ => 0) in Hbal.
    rewrite (Qsum_zero (fun _ : Vessel => 0)) in Hbal; [ exact Hbal |].
    reflexivity. }
  split; [ exact Hcount |].
  split.
  { rewrite Hn. rewrite filter_none; [ reflexivity |].
    intros r Hr. now rewrite (Hstatus r Hr). }
  split.
  { rewrite Es. cbn [poolSummary Summary.complianceRate].
    rewrite Es in Hcount.
    cbn [poolSummary Summary.compliantVessels Summary.totalVessels] in Hcount.
    rewrite Hcount.
    assert (Hlen : 0 < inject_Z (lengthOf fleet)).
    { replace 0 with (inject_Z 0) by reflexivity. rewrite <- Zlt_Qlt.
      unfold lengthOf. destruct fleet; [ congruence | simpl; lia ]. }
    assert (E : inject_Z (lengthOf fleet) / inject_Z (lengthOf fleet) * 100
                == 100) by (field; lra).
    rewrite E. exact (toFixed_Z 1 100). }
  split; [ exact Hcompliant |].
  split.
  { rewrite Es. cbn [poolSummary Summary.poolComplianceScore].
    unfold Pool.poolComplianceScore.
    rewrite (poolAverageIntensity_weighted fleet year Hy).
    assert (Hmean : weightedMean fleet <= targetIntensityOf year).
    { destruct (weighted_sums_le (targetIntensityOf year) fleet) as [H1 _].
      { apply Forall_forall. exact Hall. }
      assert (Hpos : 0 < Qsum (map fuelConsumption fleet)).
      { apply fuel_sum_pos; [ exact Hne |].
        apply Forall_forall. intros v Hv. apply (Hall v Hv). }
      unfold weightedMean. apply Qle_shift_div_r; [ exact Hpos | exact H1 ]. }
    pose proof (score_compliant (targetIntensityOf year) Hti _ Hmean) as E100.
    unfold targetIntensityOf, targetOf in E100.
    unfold Pool.poolTargetIntensity.
    unfold Calc.targetIntensity in E100. rewrite E100.
    exact (toFixed_Z 1 100). }
  split.
  { rewrite Hd. apply Qsum_zero. intros v Hv. unfold deficitOf.
    assert (Hnot : Qlt_bool (balanceOf year v) 0 = false).
    { apply Qlt_bool_false_iff. now apply Hbal. }
    now rewrite Hnot. }
  split.
  { rewrite Es. cbn [poolSummary Summary.poolPotentialPenalty].
    rewrite Es in Hcompliant.
    cbn [poolSummary Summary.poolCompliant] in Hcompliant.
    unfold Pool.poolCompliant in Hcompliant.
    apply Qle_bool_iff in Hcompliant.
    apply Qlt_bool_false_iff in Hcompliant. rewrite Hcompliant. reflexivity. }
  rewrite Hp. apply Qsum_zero. intros v Hv.
  destruct (Hall v Hv) as [Hf Hg].
  unfold penaltyOf, Calc.potentialPenalty.
  assert (Hnot : Qlt_bool (Calc.complianceBalance (targetIntensityOf year) v) 0
                 = false).
  { apply Qlt_bool_false_iff. now apply balance_nonneg_at_or_below. }
  rewrite Hnot. apply toFixed_0.
Qed.

Lemma pool_of_compliant_vessels_witness :
  exists p,
    calculatePoolCompliance cleanFleet 2025 = Ok p /\
    Summary.poolCompliant (summary p) = true /\
    Summary.poolComplianceScore (summary p) == 100.
Proof.
  destruct (pool_of_compliant_vessels cleanFleet 2025)
    as (p & Ep & _ & _ & _ & Hc & Hs & _).
  - discriminate.
  - reflexivity.
  - repeat constructor; vm_compute; congruence.
  - exists p. repeat split; assumption.
Defined.

Lemma balance_neg_above (year : Z) (v : Vessel) :
  0 < fuelConsumption v -> targetIntensityOf year < ghgIntensity v ->
  Calc.complianceBalance (targetIntensityOf year) v < 0.
Proof.
  intros Hf Hg. now apply (complianceBalance_neg_iff _ v Hf).
Qed.

(** X18.  A pool, not empty, of vessels with positive fuel consumption
    whose intensities are all above the target of a valid year: every
    vessel counts as non-compliant, the rate is 0, the surplus is zero,
    the balance is not positive, and the fuel-weighted average is above
    the target, so that the unrounded score is below 100 and the
    reported deviation is not negative. *)
Theorem pool_of_non_compliant_vessels (fleet : list Vessel) (year : Z) :
  fleet <> [] -> validYear year = true ->
  Forall (fun v => 0 < fuelConsumption v
                   /\ targetIntensityOf year < ghgIntensity v) fleet ->
  exists p,
    calculatePoolCompliance fleet year = Ok p /\
    Summary.nonCompliantVessels (summary p) = Summary.totalVessels (summary p) /\
    Summary.compliantVessels (summary p) = 0%Z /\
    Summary.complianceRate (summary p) == 0 /\
    Summary.poolComplianceSurplus (summary p) == 0 /\
    Summary.poolComplianceBalance (summary p) <= 0 /\
    targetIntensityOf year < weightedMean fleet /\
    calculateComplianceScore (weightedMean fleet) (targetIntensityOf year)
    < 100 /\
    0 <= Summary.poolDeviation (summary p).
Proof.
  intros Hne Hy Hall.
  pose proof (targetIntensityOf_pos year Hy) as Hti.
  destruct (pool_fields_as_sums fleet year Hne Hy)
    as (p & Ep & Ev & Es & Hb & _ & Hs & _).
  destruct (pool_count_fields fleet year Hne Hy)
    as (p' & Ep' & Ht & Hc & Hn).
  assert (p' = p) by congruence. subst p'.
  exists p. split; [ exact Ep |].
  assert (Hall' := Hall). rewrite Forall_forall in Hall.
  assert (Hbal : forall v, In v fleet -> balanceOf year v <= 0).
  { intros v Hv. destruct (Hall v Hv) as [Hf Hg].
    apply toFixed_nonpos, Qlt_le_weak. now apply balance_neg_above. }
  assert (Hstatus : forall r, In r (vessels p) -> isCompliant r = false).
  { intros r Hr. rewrite Ev in Hr. apply in_map_iff in Hr.
    destruct Hr as (v & <- & Hv). destruct (Hall v Hv) as [Hf Hg].
    unfold isCompliant. cbn [status vesselResult].
    assert (Hnc : Calc.status (targetIntensityOf year) v = non_compliant).
    { apply status_non_compliant_iff. now apply balance_neg_above. }
    change (Status_eqb (Calc.status (targetIntensityOf year) v) compliant
            = false).
    rewrite Hnc. reflexivity. }
  assert (Hzero : Summary.compliantVessels (summary p) = 0%Z).
  { rewrite Hc, (filter_none _ _ Hstatus). reflexivity. }
  split.
  { rewrite Hn, Ht. rewrite filter_all.
    - rewrite Ev. unfold lengthOf. now rewrite length_map.
    - intros r Hr. now rewrite (Hstatus r Hr). }
  split; [ exact Hzero |].
  split.
  { rewrite Es. cbn [poolSummary Summary.complianceRate].
    rewrite Es in Hzero. cbn [poolSummary Summary.compliantVessels] in Hzero.
    rewrite Hzero.
    assert (E : inject_Z 0 / inject_Z (lengthOf fleet) * 100 == 0).
    { unfold Qdiv. change (inject_Z 0) with 0. ring. }
    rewrite E. apply toFixed_0. }
  split.
  { rewrite Hs. apply Qsum_zero. intros v Hv. unfold surplusOf.
    assert (Hnot : Qlt_bool 0 (balanceOf year v) = false).
    { apply Qlt_bool_false_iff. now apply Hbal. }
    now rewrite Hnot. }
  split.
  { rewrite Hb.
    apply Qsum_le with (h := fun _ => 0) in Hbal.
    rewrite (Qsum_zero (fun _ : Vessel => 0)) in Hbal; [ exact Hbal |].
    reflexivity. }
  destruct (weighted_sums_gt (targetIntensityOf year) fleet Hne Hall')
    as [Hgt Hpos].
  assert (Hmean : targetIntensityOf year < weightedMean fleet).
  { unfold weightedMean. apply Qlt_shift_div_l; assumption. }
  split; [ exact Hmean |].
  split; [ apply (score_deficit_range _ Hti _ Hmean) |].
  rewrite Es. cbn [poolSummary Summary.poolDeviation].
  apply toFixed_nonneg.
  rewrite (poolAverageIntensity_weighted fleet year Hy).
  unfold targetIntensityOf, targetOf, Calc.targetIntensity in Hmean.
  unfold Pool.poolTargetIntensity, targetOf. lra.
Qed.

Lemma pool_of_non_compliant_vessels_witness :
  exists p,
    calculatePoolCompliance dirtyFleet 2025 = Ok p /\
    Summary.compliantVessels (summary p) = 0%Z /\
    Summary.complianceRate (summary p) == 0.
Proof.
  destruct (pool_of_non_compliant_vessels dirtyFleet 2025)
    as (p & Ep & _ & Hc & Hr & _).
  - discriminate.
  - reflexivity.
  - repeat constructor; vm_compute; congruence.
  - exists p. repeat split; assumption.
Defined.

(** ** The trend *)

Lemma summaryFor_returned (fleet : list Vessel) (year : Z) :
  validYear year = true ->
  exists p,
    calculatePoolCompliance fleet year = Ok p /\
    summaryFor fleet year = summary p.
Proof.
  intro Hy. destruct (calculatePoolCompliance_returns fleet year Hy) as [p Ep].
  exists p. split; [ exact Ep |]. unfold summaryFor. now rewrite Ep.
Qed.


(** The loop pushes one entry for each year with a target. *)
Lemma trendLoop_entries (fleet : list Vessel) (steps : nat) (start : Z) :
  trendLoop steps fleet start
  = Ok (map (fun y => trendEntry y (summaryFor fleet y))
            (filter validYear (yearsFrom start steps))).
Proof.
  revert start. induction steps as [| n IH]; intro start;
    cbn [trendLoop yearsFrom filter map].
  - reflexivity.
  - unfold validYear at 1.
    destruct (falsy (prop complianceTargets start)) eqn:Ef; cbn [negb].
    + apply IH.
    + assert (Hy : validYear start = true) by (unfold validYear; now rewrite Ef).
      destruct (summaryFor_returned fleet start Hy) as (p & Ep & Es).
      rewrite Ep, IH. cbn [bind map]. rewrite Es. reflexivity.
Qed.

Lemma yearsFrom_bounds (start : Z) (n : nat) :
  Forall (fun y => (start <= y < start + Z.of_nat n)%Z) (yearsFrom start n).
Proof.
  revert start. induction n as [| n IH]; intro start; cbn [yearsFrom].
  - constructor.
  - constructor; [ lia |].
    apply Forall_impl with (2 := IH (start + 1)%Z). intros y Hy. lia.
Qed.

Lemma yearsFrom_sorted (start : Z) (n : nat) :
  StronglySorted Z.lt (yearsFrom start n).
Proof.
  revert start. induction n as [| n IH]; intro start; cbn [yearsFrom].
  - constructor.
  - constructor; [ apply IH |].
    apply Forall_impl with (2 := yearsFrom_bounds (start + 1)%Z n).
    intros y Hy. lia.
Qed.

Lemma filter_sorted {A : Type} (R : A -> A -> Prop) (f : A -> bool)
      (l : list A) :
  StronglySorted R l -> StronglySorted R (filter f l).
Proof.
  intro H. induction H as [| a l Hs IH Ha]; cbn [filter].
  - constructor.
  - destruct (f a); [| exact IH ].
    constructor; [ exact IH |].
    apply Forall_forall. intros b Hb. apply filter_In in Hb.
    rewrite Forall_forall in Ha. apply Ha. tauto.
Qed.

(** A strictly increasing list of integers between [a] and [b] has at
    most [b - a + 1] elements. *)
Lemma sorted_within_length (l : list Z) :
  StronglySorted Z.lt l ->
  forall a b : Z,
    Forall (fun y => (a <= y <= b)%Z) l ->
    (Z.of_nat (List.length l) <= Z.max 0 (b - a + 1))%Z.
Proof.
  intro H. induction H as [| x l Hs IH Hx]; intros a b Hab; cbn [List.length].
  - lia.
  - inversion Hab as [| ? ? Hxab Hrest]; subst.
    assert (Htail : Forall (fun y => (x + 1 <= y <= b)%Z) l).
    { apply Forall_forall. intros y Hy.
      rewrite Forall_forall in Hx, Hrest.
      pose proof (Hx y Hy). pose proof (Hrest y Hy). lia. }
    pose proof (IH (x + 1)%Z b Htail). lia.
Qed.

(** X19.  [calculateComplianceTrend] never throws: it returns one entry
    for each year of the range that has a target, in increasing order of
    the years, each entry taken from the summary of
    [calculatePoolCompliance] for that year; the list is empty when the
    end is before the start, and it never has more than eight entries. *)
Theorem trend_entries (fleet : list Vessel) (startYear endYear : Z) :
  calculateComplianceTrend fleet startYear endYear
  = Ok (map (fun y => trendEntry y (summaryFor fleet y))
            (validYearsOf startYear endYear)) /\
  StronglySorted Z.lt (validYearsOf startYear endYear) /\
  Forall (fun y => (startYear <= y <= endYear)%Z /\ validYear y = true)
         (validYearsOf startYear endYear) /\
  (forall y, (startYear <= y <= endYear)%Z -> validYear y = true ->
             In y (validYearsOf startYear endYear)) /\
  ((endYear < startYear)%Z -> validYearsOf startYear endYear = []) /\
  (List.length (validYearsOf startYear endYear) <= 8)%nat.
Proof.
  unfold calculateComplianceTrend, validYearsOf.
  set (n := Z.to_nat (endYear - startYear + 1)).
  assert (Hin : Forall (fun y => (startYear <= y <= endYear)%Z
                                 /\ validYear y = true)
                       (filter validYear (yearsFrom startYear n))).
  { apply Forall_forall. intros y Hy. apply filter_In in Hy.
    destruct Hy as [Hy Hv]. split; [| exact Hv ].
    pose proof (yearsFrom_bounds startYear n) as Hb.
    rewrite Forall_forall in Hb. specialize (Hb y Hy). unfold n in Hb. lia. }
  assert (Hsorted : StronglySorted Z.lt (filter validYear (yearsFrom startYear n))).
  { apply filter_sorted, yearsFrom_sorted. }
  split; [ apply trendLoop_entries |].
  split; [ exact Hsorted |].
  split; [ exact Hin |].
  split.
  { intros y Hy Hv. apply filter_In. split; [| exact Hv ].
    assert (Hgen : forall m s,
               (s <= y < s + Z.of_nat m)%Z -> In y (yearsFrom s m)).
    { induction m as [| m IHm]; intros s Hs; cbn [yearsFrom]; [ lia |].
      destruct (Z.eq_dec s y) as [-> | Hneq]; [ now left |].
      right. apply IHm. lia. }
    apply Hgen. unfold n. lia. }
  split.
  { intro Hlt. unfold n. replace (Z.to_nat (endYear - startYear + 1)) with 0%nat
      by lia. reflexivity. }
  assert (Hrange : Forall (fun y => (2025 <= y <= 2032)%Z)
                          (filter validYear (yearsFrom startYear n))).
  { apply Forall_impl with (2 := Hin). intros y [_ Hv].
    destruct (validYear_range y Hv) as [[H _] | [H _]]; lia. }
  pose proof (sorted_within_length _ Hsorted 2025%Z 2032%Z Hrange). lia.
Qed.





(** ** getAvailableYears *)

Lemma availableYears_keys :
  map AvailableYear.year getAvailableYears = keys complianceTargets.
Proof. reflexivity. Qed.

Lemma keys_validYear (year : Z) :
  In year (keys complianceTargets) <-> validYear year = true.
Proof.
  split.
  - intro H. apply in_range_validYear.
    cbn [keys complianceTargets map fst In] in H. lia.
  - intro H.
    assert (Hr : (2025 <= year <= 2032)%Z).
    { destruct (validYear_range year H) as [[Hr _] | [Hr _]]; lia. }
    cbn [keys complianceTargets map fst In]. lia.
Qed.

Lemma keys_sorted : StronglySorted Z.lt (keys complianceTargets).
Proof.
  cbn [keys complianceTargets map fst].
  repeat (constructor; [| repeat (constructor; [ lia |]); constructor ]).
  constructor.
Qed.

(** Two strictly increasing lists with the same elements are the same
    list. *)
Lemma sorted_same_elements (l1 : list Z) :
  StronglySorted Z.lt l1 ->
  forall l2 : list Z,
    StronglySorted Z.lt l2 ->
    (forall x, In x l1 <-> In x l2) ->
    l1 = l2.
Proof.
  intro H1. induction H1 as [| x l1 Hs1 IH Hx]; intros l2 H2 Hsame.
  - destruct l2 as [| y l2]; [ reflexivity |].
    destruct (proj2 (Hsame y) (or_introl eq_refl)).
  - destruct l2 as [| y l2].
    { destruct (proj1 (Hsame x) (or_introl eq_refl)). }
    inversion H2 as [| ? ? Hs2 Hy]; subst.
    rewrite Forall_forall in Hx, Hy.
    assert (Exy : x = y).
    { destruct (proj1 (Hsame x) (or_introl eq_refl)) as [E | Hin];
        [ now symmetry |].
      destruct (proj2 (Hsame y) (or_introl eq_refl)) as [E | Hin'];
        [ exact E |].
      pose proof (Hx y Hin'). pose proof (Hy x Hin). lia. }
    subst y. f_equal. apply IH; [ exact Hs2 |].
    intro z. split; intro Hz.
    + destruct (proj1 (Hsame z) (or_intror Hz)) as [E | Hin]; [| exact Hin ].
      pose proof (Hx z Hz). lia.
    + destruct (proj2 (Hsame z) (or_intror Hz)) as [E | Hin]; [| exact Hin ].
      pose proof (Hy z Hz). lia.
Qed.

(** X21.  [getAvailableYears] lists the years in increasing order, and
    they are the years the calculator accepts: a year is listed exactly
    when [calculateVesselCompliance] returns for it, the listed target is
    the one the calculation uses, and a trend has one entry for each
    listed year between its start and its end. *)
Theorem available_years_are_the_accepted_years
        (vessel : Vessel) (fleet : list Vessel) (startYear endYear : Z) :
  StronglySorted Z.lt (map AvailableYear.year getAvailableYears) /\
  (forall year,
      In year (map AvailableYear.year getAvailableYears) <->
      exists r, calculateVesselCompliance vessel year = Ok r) /\
  (forall a,
      In a getAvailableYears ->
      calculateVesselCompliance vessel (AvailableYear.year a)
      = Ok (vesselResult vessel (AvailableYear.year a)
                         (AvailableYear.target a))) /\
  exists l,
    calculateComplianceTrend fleet startYear endYear = Ok l /\
    map Trend.year l
    = filter (fun y => (startYear <=? y)%Z && (y <=? endYear)%Z)
             (map AvailableYear.year getAvailableYears).
Proof.
  rewrite availableYears_keys.
  split; [ exact keys_sorted |].
  split.
  { intro year. rewrite keys_validYear. split.
    - intro Hy. eexists. apply (calculateVesselCompliance_ok vessel year Hy).
    - intros [r Er]. destruct (validYear year) eqn:Ev; [ reflexivity |].
      rewrite (calculateVesselCompliance_throws vessel year Ev) in Er.
      discriminate. }
  split.
  { intros a Ha. unfold getAvailableYears in Ha. apply in_map_iff in Ha.
    destruct Ha as (y & <- & Hy). apply keys_validYear in Hy.
    cbn [AvailableYear.year AvailableYear.target].
    apply (calculateVesselCompliance_ok vessel y Hy). }
  eexists. split; [ unfold calculateComplianceTrend; apply trendLoop_entries |].
  rewrite map_map. cbn [trendEntry Trend.year]. rewrite map_id.
  set (n := Z.to_nat (endYear - startYear + 1)).
  apply sorted_same_elements.
  - apply filter_sorted, yearsFrom_sorted.
  - apply filter_sorted, keys_sorted.
  - intro y. rewrite !filter_In, keys_validYear, andb_true_iff.
    rewrite !Z.leb_le.
    split.
    + intros [Hy Hv]. pose proof (yearsFrom_bounds startYear n) as Hb.
      rewrite Forall_forall in Hb. specialize (Hb y Hy). unfold n in Hb.
      split; [ exact Hv | lia ].
    + intros [Hv Hr]. split; [| exact Hv ].
      assert (Hgen : forall m s,
                 (s <= y < s + Z.of_nat m)%Z -> In y (yearsFrom s m)).
      { induction m as [| m IHm]; intros s Hs; cbn [yearsFrom]; [ lia |].
        destruct (Z.eq_dec s y) as [-> | Hneq]; [ now left |].
        right. apply IHm. lia. }
      apply Hgen. unfold n. lia.
Qed.

(** ** A result given back to the calculator *)

Lemma assoc_setProp_same (key : string) (v : Value)
      (props : list (string * Value)) :
  assoc key (setProp key v props) = Some v.
Proof.
  induction props as [| [k v'] props IH]; cbn [setProp assoc].
  - now rewrite String.eqb_refl.
  - destruct (String.eqb key k) eqn:E; cbn [assoc]; rewrite E;
      [ reflexivity | exact IH ].
Qed.

Lemma setProp_setProp (key : string) (v1 v2 : Value)
      (props : list (string * Value)) :
  setProp key v2 (setProp key v1 props) = setProp key v2 props.
Proof.
  induction props as [| [k v'] props IH]; cbn [setProp].
  - now rewrite String.eqb_refl.
  - destruct (String.eqb key k) eqn:E; cbn [setProp]; rewrite E;
      [ reflexivity | now rewrite IH ].
Qed.

(** Writing a property the object has commutes with writing another. *)
Lemma setProp_comm_present (k k' : string) (v v' : Value)
      (props : list (string * Value)) :
  k <> k' -> assoc k props <> None ->
  setProp k v (setProp k' v' props) = setProp k' v' (setProp k v props).
Proof.
  intros Hne. induction props as [| [k0 v0] props IH]; intro Hin;
    cbn [assoc] in Hin; [ congruence |].
  cbn [setProp].
  destruct (String.eqb_spec k k0) as [-> | Hk];
    destruct (String.eqb_spec k' k0) as [-> | Hk']; cbn [setProp].
  - congruence.
  - rewrite String.eqb_refl.
    destruct (String.eqb_spec k' k0); [ congruence | reflexivity ].
  - rewrite String.eqb_refl.
    destruct (String.eqb_spec k k0); [ congruence | reflexivity ].
  - destruct (String.eqb_spec k k0); [ congruence |].
    destruct (String.eqb_spec k' k0); [ congruence |].
    now rewrite IH.
Qed.

Lemma setProp_setProps_comm (k : string) (v : Value)
      (kvs props : list (string * Value)) :
  ~ In k (map fst kvs) -> assoc k props <> None ->
  setProp k v (fold_left (fun props kv => setProp (fst kv) (snd kv) props)
                         kvs props)
  = fold_left (fun props kv => setProp (fst kv) (snd kv) props)
              kvs (setProp k v props).
Proof.
  revert props. induction kvs as [| [k' v'] kvs IH]; intros props Hnot Hin;
    cbn [fold_left fst snd].
  - reflexivity.
  - cbn [map fst In] in Hnot.
    assert (Hne : k <> k') by (intro E; apply Hnot; left; now symmetry).
    rewrite IH.
    + now rewrite (setProp_comm_present k k' v v' props Hne Hin).
    + tauto.
    + now rewrite (assoc_setProp_other k k' v' props Hne).
Qed.

(** Writing the same properties a second time leaves only the second
    values, and the properties where the first writing put them. *)
Lemma setProps_again (kvs1 : list (string * Value)) :
  NoDup (map fst kvs1) ->
  forall kvs2 props,
    map fst kvs1 = map fst kvs2 ->
    fold_left (fun props kv => setProp (fst kv) (snd kv) props) kvs2
              (fold_left (fun props kv => setProp (fst kv) (snd kv) props)
                         kvs1 props)
    = fold_left (fun props kv => setProp (fst kv) (snd kv) props) kvs2 props.
Proof.
  induction kvs1 as [| [k v1] kvs1 IH]; intros Hnd kvs2 props Hkeys.
  - destruct kvs2; [ reflexivity | discriminate ].
  - destruct kvs2 as [| [k2 v2] kvs2]; [ discriminate |].
    cbn [map fst] in Hkeys, Hnd. injection Hkeys as <- Hkeys.
    inversion Hnd as [| ? ? Hnot Hnd']; subst.
    cbn [fold_left fst snd].
    rewrite (setProp_setProps_comm k v2 kvs1 (setProp k v1 props) Hnot).
    + rewrite setProp_setProp. apply (IH Hnd' kvs2 _ Hkeys).
    + rewrite assoc_setProp_same. discriminate.
Qed.

Lemma computedKeys_NoDup (r : VesselResult) : NoDup (map fst (computedProps r)).
Proof.
  cbn [computedProps map fst].
  repeat (constructor; [ cbn [In]; intuition discriminate |]).
  constructor.
Qed.

(** X22.  A result of [calculateVesselCompliance] can be given back to
    it, for the same year or another one with a target: the call returns,
    and the object it returns is the one the vessel itself gives for that
    year, property by property and in the same order; nothing of the
    first calculation is left in it. *)
Theorem recalculation_replaces_result (vessel : Vessel) (year1 year2 : Z) :
  validYear year1 = true -> validYear year2 = true ->
  exists r1 r2 r,
    calculateVesselCompliance vessel year1 = Ok r1 /\
    calculateVesselCompliance (toObject r1) year2 = Ok r2 /\
    calculateVesselCompliance vessel year2 = Ok r /\
    toObject r2 = toObject r.
Proof.
  intros H1 H2.
  exists (vesselResult vessel year1 (numberOf (prop complianceTargets year1))).
  eexists. eexists.
  split; [ apply (calculateVesselCompliance_ok vessel year1 H1) |].
  split; [ apply (calculateVesselCompliance_ok _ year2 H2) |].
  split; [ apply (calculateVesselCompliance_ok vessel year2 H2) |].
  unfold toObject at 1 3.
  cbn [spread vesselResult]. cbn [toObject fuelConsumption ghgIntensity otherProps].
  f_equal.
  change (computedProps
            (vesselResult
               (toObject (vesselResult vessel year1
                            (numberOf (prop complianceTargets year1))))
               year2 (numberOf (prop complianceTargets year2))))
    with (computedProps
            (vesselResult vessel year2 (numberOf (prop complianceTargets year2)))).
  apply setProps_again; [ apply computedKeys_NoDup | reflexivity ].
Qed.

Lemma recalculation_replaces_result_witness :
  exists r1 r2 r,
    calculateVesselCompliance medPrincess 2025 = Ok r1 /\
    calculateVesselCompliance (toObject r1) 2030 = Ok r2 /\
    calculateVesselCompliance medPrincess 2030 = Ok r /\
    toObject r2 = toObject r.
Proof.
  apply (recalculation_replaces_result medPrincess 2025 2030); reflexivity.
Defined.
